(** * code-quality-linter: a shallow embedding of [src/index.js]

    The development follows the source file top-down:

    - JavaScript strings, [split] and [toLowerCase];
    - the regular expressions of [LINT_RULES] and of [calculateComplexity],
      with the backtracking matcher the language standard prescribes and the
      stateful [exec] of [RegExp] objects ([lastIndex]);
    - [getExtension], [lintFile], [calculateComplexity];
    - the [lint], [complexity] and [pr] actions over an abstract file system.

    Loops that the source leaves unbounded ([while (regex.exec(line))], the
    recursive directory walk) take a fuel argument; running out of fuel is
    the model's rendering of a run that has not finished yet. *)

From Stdlib Require Import String Ascii List Sorted NArith Arith Lia Bool.
Import ListNotations.
Local Open Scope list_scope.

(* ================================================================= *)
(** ** JavaScript strings *)

(** A string is a sequence of UTF-16 code units; a regular expression without
    the [u] flag, [split], [length] and [match.index] all count code units. *)
Definition char16 := N.
Definition jsstring := list char16.

(** String literals of the source, written as Rocq strings. *)
Definition str (s : string) : jsstring :=
  map N_of_ascii (list_ascii_of_string s).
Arguments str s%_string.

Definition char16_eqb (a b : char16) : bool := N.eqb a b.

Fixpoint jsstring_eqb (a b : jsstring) : bool :=
  match a, b with
  | [], [] => true
  | x :: a', y :: b' => char16_eqb x y && jsstring_eqb a' b'
  | _, _ => false
  end.

(** [s.split(sep)] for a separator of one code unit (the source only splits
    on ["\n"] and on ["."]).  The result is never empty: [("").split(sep)] is
    [[""]]. *)
Fixpoint split (sep : char16) (s : jsstring) : list jsstring :=
  match s with
  | [] => [[]]
  | c :: s' =>
      if char16_eqb c sep then [] :: split sep s'
      else match split sep s' with
           | piece :: rest => (c :: piece) :: rest
           | [] => [[c]]
           end
  end.

(** [arr.pop()] read as a value: the last element.  An empty array would
    give [undefined]; [split] never returns one. *)
Definition pop (arr : list jsstring) : jsstring := last arr [].

(** [arr.includes(x)] on an array of strings. *)
Definition includes (arr : list jsstring) (x : jsstring) : bool :=
  existsb (jsstring_eqb x) arr.

(** [toLowerCase], exact on strings of ASCII code units: [A-Z] go to [a-z]
    and the other ASCII units stay.  The standard's function also changes
    letters outside ASCII; here such units are left as they are.  That keeps
    every comparison with the language names of [LINT_RULES] as it is in
    the program, since no code unit outside [A-Z] lower-cases to one of the
    letters of [js], [ts], [jsx], [tsx] and [py]; a statement about the
    value of [getExtension] itself holds for ASCII extensions only and says
    so. *)
Definition lowerChar (c : char16) : char16 :=
  if ((65 <=? c) && (c <=? 90))%N then (c + 32)%N else c.

Definition toLowerCase (s : jsstring) : jsstring := map lowerChar s.

Definition LF : char16 := 10%N.
Definition FULL_STOP : char16 := 46%N.

(** [s.substring(i, e)] for [i <= e]. *)
Definition substring (s : jsstring) (i e : nat) : jsstring :=
  firstn (e - i) (skipn i s).

(* ================================================================= *)
(** ** Regular expressions *)

Module Regex.

(** The atoms that consume one code unit. *)
Inductive CharClass : Type :=
| Lit (c : char16)   (** a literal or an identity escape: [v], [\.], [\(], [\t] *)
| Dot                (** [.] *)
| Space              (** [\s] *)
| Word.              (** [\w] *)

(** Abstract syntax of [pattern.source]; quantifiers are the greedy ones. *)
Inductive t : Type :=
| Empty
| Char (cc : CharClass)
| Seq (r1 r2 : t)
| Alt (r1 r2 : t)
| Repeat (min : nat) (max : option nat) (r : t)   (** [r{min,max}], [None] is no upper bound *)
| Group (r : t)                                   (** [( r )] *)
| WordBoundary                                    (** [\b] *)
| EndOfLine                                       (** [$] *)
| NegLookahead (r : t).                           (** [(?! r )] *)

Definition plus (r : t) : t := Repeat 1 None r.
Definition star (r : t) : t := Repeat 0 None r.

(** A run of literal characters. *)
Fixpoint lits (s : jsstring) : t :=
match s with
| [] => Empty
| [c] => Char (Lit c)
| c :: s' => Seq (Char (Lit c)) (lits s')
end.

Definition isLineTerminator (c : char16) : bool :=
((c =? 10) || (c =? 13) || (c =? 0x2028) || (c =? 0x2029))%N.

Definition isWhiteSpace (c : char16) : bool :=
((c =? 9) || (c =? 11) || (c =? 12) || (c =? 32) || (c =? 0xA0)
 || (c =? 0x1680) || ((0x2000 <=? c) && (c <=? 0x200A))
 || (c =? 0x202F) || (c =? 0x205F) || (c =? 0x3000) || (c =? 0xFEFF))%N.

Definition isWordCharacter (c : char16) : bool :=
(((97 <=? c) && (c <=? 122)) || ((65 <=? c) && (c <=? 90))
 || ((48 <=? c) && (c <=? 57)) || (c =? 95))%N.

Definition charMatches (cc : CharClass) (ch : char16) : bool :=
match cc with
| Lit c => char16_eqb ch c
| Dot => negb (isLineTerminator ch)
| Space => isWhiteSpace ch || isLineTerminator ch
| Word => isWordCharacter ch
end.

(** A continuation takes the end index reached so far and finishes the
  match; a matcher takes the index to start at and a continuation.  A
  result is the end index of the whole match.  Captures are left out: no
  pattern of the source has a back-reference and the source reads only
  [match.index]. *)
Definition Continuation := nat -> option nat.
Definition Matcher := nat -> Continuation -> option nat.

Section Matching.
Variable input : jsstring.
Variable multiline : bool.

(** [IsWordChar(e)], with [IsWordChar(-1)] as [wordBefore 0]. *)
Definition isWordChar (e : nat) : bool :=
match nth_error input e with
| Some c => isWordCharacter c
| None => false
end.

Definition wordBefore (e : nat) : bool :=
match e with
| 0 => false
| S p => isWordChar p
end.

(** [RepeatMatcher(m, min, max, greedy = true, x, c)].  An iteration that
  consumes nothing once [min] is reached is rejected, so every unfolding
  either lowers [min] or moves [x] forward: [fuel] bounds the unfoldings
  (see [repeatMatcher_fuel]). *)
Fixpoint repeatMatcher (fuel : nat) (m : Matcher) (min : nat) (max : option nat)
       (x : nat) (c : Continuation) {struct fuel} : option nat :=
match fuel with
| 0 => None
| S fuel' =>
    match max with
    | Some 0 => c x
    | _ =>
        let d : Continuation := fun y =>
          if (min =? 0) && (y =? x) then None
          else repeatMatcher fuel' m (pred min) (option_map pred max) y c in
        if negb (min =? 0) then m x d
        else match m x d with
             | Some z => Some z
             | None => c x
             end
    end
end.

Fixpoint compile (r : t) : Matcher :=
match r with
| Empty => fun x c => c x
| Char cc => fun x c =>
    match nth_error input x with
    | Some ch => if charMatches cc ch then c (S x) else None
    | None => None
    end
| Seq r1 r2 => fun x c => compile r1 x (fun y => compile r2 y c)
| Alt r1 r2 => fun x c =>
    match compile r1 x c with
    | Some z => Some z
    | None => compile r2 x c
    end
| Repeat min max r' =>
    repeatMatcher (S (min + length input)) (compile r') min max
| Group r' => compile r'
| WordBoundary => fun x c =>
    if xorb (wordBefore x) (isWordChar x) then c x else None
| EndOfLine => fun x c =>
    match nth_error input x with
    | None => c x
    | Some ch => if multiline && isLineTerminator ch then c x else None
    end
| NegLookahead r' => fun x c =>
    match compile r' x (fun y => Some y) with
    | Some _ => None
    | None => c x
    end
end.

(** The pattern matcher: one attempt anchored at [i]. *)
Definition matchAt (r : t) (i : nat) : option nat :=
compile r i (fun y => Some y).

(** The search of [RegExpBuiltinExec]: try [i], [i+1], ... for [n]
  positions. *)
Fixpoint search (r : t) (i n : nat) : option (nat * nat) :=
match n with
| 0 => None
| S n' =>
    match matchAt r i with
    | Some e => Some (i, e)
    | None => search r (S i) n'
    end
end.
End Matching.

End Regex.

(* ================================================================= *)
(** ** RegExp objects *)

Record Flags : Type := { global : bool; multiline : bool }.

(** A [RegExp] object: its pattern, its flags and the mutable [lastIndex]. *)
Record RegExp : Type :=
  { source : Regex.t; flags : Flags; lastIndex : nat }.

(** [new RegExp(source, flags)]: a fresh object, [lastIndex] is [0]. *)
Definition newRegExp (src : Regex.t) (f : Flags) : RegExp :=
  {| source := src; flags := f; lastIndex := 0 |}.

Definition setLastIndex (R : RegExp) (n : nat) : RegExp :=
  {| source := source R; flags := flags R; lastIndex := n |}.

(** The part of a match array the source can observe. *)
Record MatchResult : Type := { index : nat; matched : jsstring }.

(** [R.exec(S)]: the object after the call and the match ([None] is [null]).
    Only a global expression reads and writes [lastIndex]. *)
Definition exec (R : RegExp) (S : jsstring) : RegExp * option MatchResult :=
  let g := global (flags R) in
  let start := if g then lastIndex R else 0 in
  match Regex.search S (multiline (flags R)) (source R) start (length S + 1 - start) with
  | None => ((if g then setLastIndex R 0 else R), None)
  | Some (i, e) =>
      ((if g then setLastIndex R e else R),
       Some {| index := i; matched := substring S i e |})
  end.

(** [R.test(S)], the object after the call and the answer. *)
Definition test (R : RegExp) (S : jsstring) : RegExp * bool :=
  match exec R S with
  | (R', Some _) => (R', true)
  | (R', None) => (R', false)
  end.

Definition flags_g : Flags := {| global := true; multiline := false |}.
Definition flags_gm : Flags := {| global := true; multiline := true |}.
Definition flags_none : Flags := {| global := false; multiline := false |}.

(** A regular-expression literal [/src/flags]. *)
Definition literal (src : Regex.t) (f : Flags) : RegExp := newRegExp src f.

(* ================================================================= *)
(** ** Rules and issues *)

Inductive Severity : Type := error | warning | info.

Module Rule.
(** An entry of [LINT_RULES]; [lang] is [None] where the entry has no
    [lang] property. *)
Record t : Type :=
  { lang : option (list jsstring);
    pattern : RegExp;
    issue : jsstring;
    severity : Severity }.
End Rule.

Module Issue.
(** The object [lintFile] pushes. *)
Record t : Type :=
  { file : jsstring;
    line : nat;
    issue : jsstring;
    severity : Severity;
    column : nat }.
End Issue.

Module Patterns.
Import Regex.

Fixpoint seq (rs : list Regex.t) : Regex.t :=
  match rs with
  | [] => Empty
  | [r] => r
  | r :: rs' => Seq r (seq rs')
  end.

Definition s_plus := plus (Char Space).
Definition s_star := star (Char Space).
Definition w_plus := plus (Char Word).

(** [/\bvar\s+\w+/] *)
Definition var_usage := seq [WordBoundary; lits (str "var"); s_plus; w_plus].
(** [/console\.(log|debug|info)\(/] *)
Definition console_call :=
  seq [lits (str "console."); Group (Alt (lits (str "log")) (Alt (lits (str "debug")) (lits (str "info"))));
       lits (str "(")].
(** [/TODO|FIXME|HACK:/] *)
Definition todo := Alt (lits (str "TODO")) (Alt (lits (str "FIXME")) (lits (str "HACK:"))).
(** [/==(?!=)/] *)
Definition loose_eq := seq [lits (str "=="); NegLookahead (lits (str "="))].
(** [/new\s+Array\(/] *)
Definition new_array := seq [lits (str "new"); s_plus; lits (str "Array(")].
(** [/throw\s+new\s+Error/] *)
Definition throw_new := seq [lits (str "throw"); s_plus; lits (str "new"); s_plus; lits (str "Error")].
(** [/except\s*:/] *)
Definition bare_except := seq [lits (str "except"); s_star; lits (str ":")].
(** [/print\s*\(/] *)
Definition print_call := seq [lits (str "print"); s_star; lits (str "(")].
(** [/from\s+\w+\s+import\s+\*/] *)
Definition wildcard_import :=
  seq [lits (str "from"); s_plus; w_plus; s_plus; lits (str "import"); s_plus; lits (str "*")].
(** [/.{120,}/] *)
Definition long_line := Repeat 120 None (Char Dot).
(** [/\s+$/] *)
Definition trailing_ws := seq [s_plus; EndOfLine].
(** [/\t/] *)
Definition tab := Char (Lit 9%N).

(** [\bkw\b] *)
Definition keyword (kw : jsstring) := seq [WordBoundary; lits kw; WordBoundary].

Definition KEYWORDS : list jsstring :=
  [str "if"; str "for"; str "while"; str "switch"; str "catch"; str "case"].

(** [/\bif\b|\bfor\b|\bwhile\b|\bswitch\b|\bcatch\b|\bcase\b/] *)
Definition branching :=
  Alt (keyword (str "if")) (Alt (keyword (str "for")) (Alt (keyword (str "while"))
    (Alt (keyword (str "switch")) (Alt (keyword (str "catch")) (keyword (str "case")))))).
End Patterns.

Definition QUOTE : jsstring := [34%N].
Definition quoted (s : jsstring) : jsstring := QUOTE ++ s ++ QUOTE.

Definition JS_TS : option (list jsstring) :=
  Some [str "js"; str "ts"; str "jsx"; str "tsx"].
Definition PY : option (list jsstring) := Some [str "py"].

Definition mkRule (l : option (list jsstring)) (p : Regex.t) (f : Flags)
           (msg : jsstring) (sev : Severity) : Rule.t :=
  {| Rule.lang := l; Rule.pattern := literal p f; Rule.issue := msg; Rule.severity := sev |}.

Definition LINT_RULES : list Rule.t :=
  [ (* JavaScript/TypeScript *)
    mkRule JS_TS Patterns.var_usage flags_g
      (str "Use " ++ quoted (str "let") ++ str " or " ++ quoted (str "const")
         ++ str " instead of " ++ quoted (str "var")) warning;
    mkRule JS_TS Patterns.console_call flags_g (str "Remove debug statements") warning;
    mkRule JS_TS Patterns.todo flags_g (str "TODO/FIXME comment found") info;
    mkRule JS_TS Patterns.loose_eq flags_g (str "Use === instead of ==") warning;
    mkRule JS_TS Patterns.new_array flags_g (str "Use array literal []") info;
    mkRule JS_TS Patterns.throw_new flags_g
      (str "Just " ++ quoted (str "throw Error") ++ str " is enough") info;
    (* Python *)
    mkRule PY Patterns.bare_except flags_g
      (str "Use " ++ quoted (str "except Exception:")) warning;
    mkRule PY Patterns.print_call flags_g (str "Consider using logging") info;
    mkRule PY Patterns.wildcard_import flags_g (str "Avoid wildcard imports") warning;
    (* General *)
    mkRule None Patterns.long_line flags_g (str "Line exceeds 120 characters") info;
    mkRule None Patterns.trailing_ws flags_gm (str "Trailing whitespace") info;
    mkRule None Patterns.tab flags_g (str "Use spaces instead of tabs") warning ].

(* ================================================================= *)
(** ** [getExtension] and [lintFile] *)

Definition getExtension (filePath : jsstring) : jsstring :=
  toLowerCase (pop (split FULL_STOP filePath)).

(** [rule.lang && !rule.lang.includes(ext)]: the test that skips a rule.  An
    array, even an empty one, is truthy. *)
Definition skipped (rule : Rule.t) (ext : jsstring) : bool :=
  match Rule.lang rule with
  | Some l => negb (includes l ext)
  | None => false
  end.

Section LintFile.
(** Bound on the iterations of one [while] loop. *)
Variable fuel : nat.
Variable filePath : jsstring.

Definition mkIssue (lineNum : nat) (rule : Rule.t) (m : MatchResult) : Issue.t :=
  {| Issue.file := filePath;
     Issue.line := lineNum;
     Issue.issue := Rule.issue rule;
     Issue.severity := Rule.severity rule;
     Issue.column := index m + 1 |}.

(** [while ((match = regex.exec(line)) !== null) issues.push(...)]. *)
Fixpoint whileExec (n : nat) (regex : RegExp) (line : jsstring)
         (lineNum : nat) (rule : Rule.t) (issues : list Issue.t)
  : option (list Issue.t) :=
  match n with
  | 0 => None
  | S n' =>
      match exec regex line with
      | (regex', Some m) =>
          whileExec n' regex' line lineNum rule (issues ++ [mkIssue lineNum rule m])
      | (_, None) => Some issues
      end
  end.

(** The body of [for (const rule of LINT_RULES)]. *)
Definition lintRule (ext line : jsstring) (lineNum : nat) (rule : Rule.t)
           (issues : list Issue.t) : option (list Issue.t) :=
  if skipped rule ext then Some issues
  else
    let regex := newRegExp (source (Rule.pattern rule)) (flags (Rule.pattern rule)) in
    whileExec fuel regex line lineNum rule issues.

Fixpoint forRules (rules : list Rule.t) (ext line : jsstring) (lineNum : nat)
         (issues : list Issue.t) : option (list Issue.t) :=
  match rules with
  | [] => Some issues
  | rule :: rest =>
      match lintRule ext line lineNum rule issues with
      | Some issues' => forRules rest ext line lineNum issues'
      | None => None
      end
  end.

(** [for (let i = 0; i < lines.length; i++)], from index [i] on. *)
Fixpoint forLines (rules : list Rule.t) (ext : jsstring) (lines : list jsstring)
         (i : nat) (issues : list Issue.t) : option (list Issue.t) :=
  match lines with
  | [] => Some issues
  | line :: rest =>
      let lineNum := i + 1 in
      match forRules rules ext line lineNum issues with
      | Some issues' => forLines rules ext rest (S i) issues'
      | None => None
      end
  end.

(** [lintFile] over a rule list; the source's [lintFile] reads the
    module-level [LINT_RULES]. *)
Definition lintFileWith (rules : list Rule.t) (content : jsstring)
  : option (list Issue.t) :=
  let ext := getExtension filePath in
  let issues := [] in
  let lines := split LF content in
  forLines rules ext lines 0 issues.

Definition lintFile (content : jsstring) : option (list Issue.t) :=
  lintFileWith LINT_RULES content.
End LintFile.

(* ================================================================= *)
(** ** [calculateComplexity] *)

Fixpoint complexityLoop (lines : list jsstring) (complexity : nat) : nat :=
  match lines with
  | [] => complexity
  | line :: rest =>
      let (_, hit) := test (literal Patterns.branching flags_none) line in
      complexityLoop rest (if hit then complexity + 1 else complexity)
  end.

Definition calculateComplexity (content : jsstring) : nat :=
  let lines := split LF content in
  let complexity := 1 in
  complexityLoop lines complexity.

(** The report of the [complexity] action. *)
Inductive Classification : Type := low | moderate | high.

Definition classify (complexity : nat) : Classification :=
  if complexity <? 10 then low
  else if complexity <? 20 then moderate
  else high.

(* ================================================================= *)
(** ** The actions *)

(** How a piece of the program ends: normally, by an exception nothing
    catches, or not within the fuel given. *)
Inductive result (A : Type) : Type :=
| Done (a : A)
| Throw
| OutOfFuel.
Arguments Done {A} a.
Arguments Throw {A}.
Arguments OutOfFuel {A}.

Definition bind {A B : Type} (r : result A) (k : A -> result B) : result B :=
  match r with
  | Done a => k a
  | Throw => Throw
  | OutOfFuel => OutOfFuel
  end.

Notation "x <- r ;; k" := (bind r (fun x => k))
  (at level 61, r at next level, right associativity).

(** A call that throws on [None]. *)
Definition orThrow {A : Type} (o : option A) : result A :=
  match o with
  | Some a => Done a
  | None => Throw
  end.

(** A bounded loop that has not finished on [None]. *)
Definition orOutOfFuel {A : Type} (o : option A) : result A :=
  match o with
  | Some a => Done a
  | None => OutOfFuel
  end.

(** What [stat.isDirectory()] and [stat.isFile()] answer. *)
Inductive Stats : Type := isFile | isDirectory | isOther.

(** The file system as the [lint] action sees it; [None] is a call that
    throws (no such entry, no permission).  [join] is [path.join]. *)
Record FileSystem : Type :=
  { statSync : jsstring -> option Stats;
    readdirSync : jsstring -> option (list jsstring);
    readFileSync : jsstring -> option jsstring;
    writeFileSync : jsstring -> list Issue.t -> option unit;
    join : jsstring -> jsstring -> jsstring }.

Record Options : Type :=
  { recursive : bool; output : option jsstring; fix_ : bool }.

(** The two variables the traversal updates. *)
Record LintState : Type :=
  { allIssues : list Issue.t; filesLinted : nat }.

Record BySeverity : Type :=
  { errors : nat; warnings : nat; infos : nat }.

(** [bySeverity[issue.severity]++] *)
Definition increment (b : BySeverity) (s : Severity) : BySeverity :=
  match s with
  | error => {| errors := errors b + 1; warnings := warnings b; infos := infos b |}
  | warning => {| errors := errors b; warnings := warnings b + 1; infos := infos b |}
  | info => {| errors := errors b; warnings := warnings b; infos := infos b + 1 |}
  end.

Fixpoint groupBySeverity (issues : list Issue.t) (b : BySeverity) : BySeverity :=
  match issues with
  | [] => b
  | issue :: rest => groupBySeverity rest (increment b (Issue.severity issue))
  end.

(** [if (bySeverity.error > 0) process.exit(1)]; falling off the end of the
    action is exit code [0]. *)
Definition exitCode (b : BySeverity) : nat :=
  if 0 <? errors b then 1 else 0.

(** What a finished [lint] run leaves behind. *)
Record LintReport : Type :=
  { reportIssues : list Issue.t;
    reportFiles : nat;
    reportCounts : BySeverity;
    reportSaved : option jsstring;
    reportExit : nat }.

Section Lint.
Variable fs : FileSystem.
(** Fuel of the [while] loops of [lintFile]. *)
Variable fuel : nat.

(** [content = readFileSync(p); issues = lintFile(p, content);
    allIssues.push(...issues); filesLinted++]. *)
Definition lintOne (p : jsstring) (st : LintState) : result LintState :=
  content <- orThrow (readFileSync fs p) ;;
  issues <- orOutOfFuel (lintFile fuel p content) ;;
  Done {| allIssues := allIssues st ++ issues; filesLinted := filesLinted st + 1 |}.

(** The closure [lintDir]; [depth] bounds the nesting of the recursion. *)
Fixpoint lintDir (depth : nat) (dir : jsstring) (st : LintState) {struct depth}
  : result LintState :=
  match depth with
  | 0 => OutOfFuel
  | S depth' =>
      items <- orThrow (readdirSync fs dir) ;;
      (fix forItems (items : list jsstring) (st : LintState) {struct items}
         : result LintState :=
         match items with
         | [] => Done st
         | item :: rest =>
             let fullPath := join fs dir item in
             itemStat <- orThrow (statSync fs fullPath) ;;
             match itemStat with
             | isDirectory =>
                 st' <- lintDir depth' fullPath st ;; forItems rest st'
             | isFile =>
                 st' <- lintOne fullPath st ;; forItems rest st'
             | isOther => forItems rest st
             end
         end) items st
  end.

Variable depth : nat.
Variable options : Options.

(** The body of [for (const lintPath of paths)]. *)
Definition lintPath (p : jsstring) (st : LintState) : result LintState :=
  stat <- orThrow (statSync fs p) ;;
  match stat with
  | isDirectory => if recursive options then lintDir depth p st else Done st
  | isFile => lintOne p st
  | isOther => Done st
  end.

Fixpoint lintPaths (paths : list jsstring) (st : LintState) : result LintState :=
  match paths with
  | [] => Done st
  | p :: rest => st' <- lintPath p st ;; lintPaths rest st'
  end.

(** The [lint] action (console output left out). *)
Definition lintAction (paths : list jsstring) : result LintReport :=
  st <- lintPaths paths {| allIssues := []; filesLinted := 0 |} ;;
  let bySeverity :=
    groupBySeverity (allIssues st) {| errors := 0; warnings := 0; infos := 0 |} in
  saved <- match output options with
           | Some out =>
               _ <- orThrow (writeFileSync fs out (allIssues st)) ;; Done (Some out)
           | None => Done None
           end ;;
  Done {| reportIssues := allIssues st;
          reportFiles := filesLinted st;
          reportCounts := bySeverity;
          reportSaved := saved;
          reportExit := exitCode bySeverity |}.
End Lint.

(** The [complexity] action: the score and the classification it prints. *)
Definition complexityAction (fs : FileSystem) (filePath : jsstring)
  : result (nat * Classification) :=
  content <- orThrow (readFileSync fs filePath) ;;
  let complexity := calculateComplexity content in
  Done (complexity, classify complexity).

(** An entry of the list the hosting provider returns; [patch] is [None]
    where the entry has none. *)
Record PrFile : Type := { filename : jsstring; patch : option jsstring }.

(** [!file.patch]: a missing patch and the empty string are both falsy. *)
Definition noPatch (file : PrFile) : bool :=
  match patch file with
  | None => true
  | Some [] => true
  | Some _ => false
  end.

Record PrReport : Type :=
  { totalIssues : nat;
    (** per file with issues: its name and the first three issues printed *)
    printed : list (jsstring * list (Severity * jsstring));
    prExit : nat }.

Section Pr.
Variable fuel : nat.

(** [for (const file of files)] of the [pr] action. *)
Fixpoint prFiles (files : list PrFile) (total : nat)
         (out : list (jsstring * list (Severity * jsstring)))
  : option (nat * list (jsstring * list (Severity * jsstring))) :=
  match files with
  | [] => Some (total, out)
  | file :: rest =>
      if noPatch file then prFiles rest total out
      else
        match lintFile fuel (filename file)
                       (match patch file with Some p => p | None => [] end) with
        | None => None
        | Some issues =>
            if 0 <? length issues then
              prFiles rest (total + length issues)
                (out ++ [(filename file,
                          map (fun i => (Issue.severity i, Issue.issue i))
                              (firstn 3 issues))])
            else prFiles rest total out
        end
  end.

(** The [pr] action once the token is there and the file list has been
    fetched: it ends by falling off the end, exit code [0]. *)
Definition prAction (files : list PrFile) : option PrReport :=
  match prFiles files 0 [] with
  | Some (total, out) => Some {| totalIssues := total; printed := out; prExit := 0 |}
  | None => None
  end.
End Pr.


(** The [pr] action from its start.  [octokit] is the outcome of
    [await import('octokit')] ([None] when it throws), [token] is
    [process.env.GITHUB_TOKEN] ([None] when unset; the empty string is falsy
    too) and [listFiles] the answer of the hosting provider ([None] when the
    request throws).  [process.exit(1)] is a finished run with exit code
    [1]. *)
Definition prCommand (fuel : nat) (octokit : option unit) (token : option jsstring)
           (listFiles : option (list PrFile)) : result PrReport :=
  _ <- orThrow octokit ;;
  match token with
  | None | Some [] => Done {| totalIssues := 0; printed := []; prExit := 1 |}
  | Some _ =>
      files <- orThrow listFiles ;;
      orOutOfFuel (prAction fuel files)
  end.

(** The exit code of the process for a run of an action: the code the
    action ends with, or [1] when an exception nothing catches ends it (the
    promise of the action is rejected and node exits with code 1); [None]
    for a run that has not finished. *)
Definition processExit {A : Type} (exitOf : A -> nat) (run : result A) : option nat :=
  match run with
  | Done a => Some (exitOf a)
  | Throw => Some 1
  | OutOfFuel => None
  end.

(* ================================================================= *)
(** * Vocabulary of the statements *)

Module RegexSpec.
Import Regex.

(** The number of iterations a quantifier is sure to run. *)
Definition iterations (min : nat) (max : option nat) : nat :=
  match max with
  | Some j => Nat.min min j
  | None => min
  end.

(** A lower bound on the width of every match of [r]. *)
Fixpoint minLen (r : t) : nat :=
  match r with
  | Empty => 0
  | Char _ => 1
  | Seq r1 r2 => minLen r1 + minLen r2
  | Alt r1 r2 => Nat.min (minLen r1) (minLen r2)
  | Repeat min max r' => iterations min max * minLen r'
  | Group r' => minLen r'
  | WordBoundary => 0
  | EndOfLine => 0
  | NegLookahead _ => 0
  end.


Section Matchers.
Variable input : jsstring.

(** A matcher succeeds only through its continuation, called at least
    [k] code units further on and inside the input. *)
Definition advances (k : nat) (m : Matcher) : Prop :=
  forall x c e, x <= length input -> m x c = Some e ->
    exists y, x + k <= y /\ y <= length input /\ c y = Some e.

(** A matcher looks at its continuation only from its own start to the
    end of the input. *)
Definition respects (m : Matcher) : Prop :=
  forall x c c', x <= length input ->
    (forall y, x <= y -> y <= length input -> c y = c' y) ->
    m x c = m x c'.

End Matchers.

End RegexSpec.

(** Where a call of [exec] starts its search. *)
Definition startIndex (R : RegExp) : nat :=
  if global (flags R) then lastIndex R else 0.


(** A rule whose loop is sure to end: the expression is global and none of
    its matches is empty. *)
Definition advancing (rule : Rule.t) : bool :=
  global (flags (Rule.pattern rule))
  && (1 <=? RegexSpec.minLen (source (Rule.pattern rule))).


Section Decomposition.
Variable filePath : jsstring.

(** The issue the loop pushes for a match at column [c]. *)
Definition issueAt (lineNum : nat) (rule : Rule.t) (c : nat) : Issue.t :=
  {| Issue.file := filePath;
     Issue.line := lineNum;
     Issue.issue := Rule.issue rule;
     Issue.severity := Rule.severity rule;
     Issue.column := c |}.


Variable ext : jsstring.

(** The issues one rule contributes on one line. *)
Definition ruleChunk (line : jsstring) (lineNum : nat) (rule : Rule.t)
           (chunk : list Issue.t) : Prop :=
  exists cols,
    chunk = map (issueAt lineNum rule) cols
    /\ StronglySorted lt cols
    /\ Forall (fun c => 1 <= c /\ c <= length line) cols
    /\ (skipped rule ext = true -> cols = []).

(** The issues of a file, line by line from index [i], rule by rule. *)
Inductive fileRows (rules : list Rule.t)
  : nat -> list jsstring -> list (list (list Issue.t)) -> Prop :=
| fileRows_nil i : fileRows rules i [] []
| fileRows_cons i line lines row rows :
    Forall2 (ruleChunk line (i + 1)) rules row ->
    fileRows rules (S i) lines rows ->
    fileRows rules i (line :: lines) (row :: rows).

End Decomposition.

(** A rule the built-in list does not have: [/x*/g], which matches the empty
    string. *)
Definition emptyMatchRule : Rule.t :=
  mkRule None (Regex.star (Regex.Char (Regex.Lit 120%N))) flags_g
         (str "zero or more x") info.

(** ** The complexity score in the words of the specification *)

Module SpecScore.

(** The keyword [kw] stands in [line] at offset [i]. *)
Definition occursAt (line : jsstring) (i : nat) (kw : jsstring) : bool :=
  jsstring_eqb (firstn (length kw) (skipn i line)) kw.

(** The code unit at offset [i] can be part of an identifier. *)
Definition identifierAt (line : jsstring) (i : nat) : bool :=
  match nth_error line i with
  | Some c => Regex.isWordCharacter c
  | None => false
  end.

Definition identifierBefore (line : jsstring) (i : nat) : bool :=
  match i with
  | 0 => false
  | S p => identifierAt line p
  end.

(** A whole-word occurrence: the keyword stands at [i] and is not part of a
    longer identifier on either side. *)
Definition wholeWordAt (line : jsstring) (i : nat) (kw : jsstring) : bool :=
  occursAt line i kw
  && negb (identifierBefore line i)
  && negb (identifierAt line (i + length kw)).

Definition containsKeyword (line : jsstring) : bool :=
  existsb (fun i => existsb (wholeWordAt line i) Patterns.KEYWORDS)
          (seq 0 (length line + 1)).

(** One plus the number of lines with a whole-word keyword. *)
Definition score (content : jsstring) : nat :=
  1 + length (filter containsKeyword (split LF content)).

End SpecScore.

(** ** Rule objects up to the cursor of their pattern *)

(** Two expression objects with the same pattern and flags; their
    [lastIndex] may differ. *)
Definition samePattern (R R' : RegExp) : Prop :=
  source R = source R' /\ flags R = flags R'.

Definition sameRule (r r' : Rule.t) : Prop :=
  Rule.lang r = Rule.lang r'
  /\ samePattern (Rule.pattern r) (Rule.pattern r')
  /\ Rule.issue r = Rule.issue r'
  /\ Rule.severity r = Rule.severity r'.

(** A rule whose pattern object was left with [lastIndex = n]. *)
Definition leftAt (n : nat) (r : Rule.t) : Rule.t :=
  {| Rule.lang := Rule.lang r;
     Rule.pattern := setLastIndex (Rule.pattern r) n;
     Rule.issue := Rule.issue r;
     Rule.severity := Rule.severity r |}.

(** The rules a unit identified as [ext] is scanned with. *)
Definition applicableRules (rules : list Rule.t) (ext : jsstring) : list Rule.t :=
  filter (fun rule => negb (skipped rule ext)) rules.

(** ** Concrete inputs *)

(** The issue the first built-in rule reports. *)
Definition varIssue (filePath : jsstring) (lineNum col : nat) : Issue.t :=
  {| Issue.file := filePath;
     Issue.line := lineNum;
     Issue.issue := str "Use " ++ quoted (str "let") ++ str " or " ++ quoted (str "const")
                      ++ str " instead of " ++ quoted (str "var");
     Issue.severity := warning;
     Issue.column := col |}.

(** A file system with one readable file, [a.js]; every other path fails. *)
Definition oneFile : FileSystem :=
  {| statSync := fun p => if jsstring_eqb p (str "a.js") then Some isFile else None;
     readdirSync := fun _ => None;
     readFileSync := fun p =>
       if jsstring_eqb p (str "a.js") then Some (str "var x = 1;") else None;
     writeFileSync := fun _ _ => Some tt;
     join := fun dir item => dir ++ str "/" ++ item |}.

Definition noOptions : Options :=
  {| recursive := false; output := None; fix_ := false |}.

(** The built-in rule against [print(] in Python files. *)
Definition printRule : Rule.t :=
  mkRule PY Patterns.print_call flags_g (str "Consider using logging") info.

Definition errorCount (issues : list Issue.t) : nat :=
  length (filter (fun i => match Issue.severity i with error => true | _ => false end) issues).

(** ** Positions *)

(** An issue points into the text: its line is one of [lines] and its
    column one of the characters of that line, both counted from 1. *)
Definition wellPlaced (lines : list jsstring) (iss : Issue.t) : Prop :=
  1 <= Issue.line iss /\ Issue.line iss <= length lines
  /\ exists l, nth_error lines (Issue.line iss - 1) = Some l
               /\ 1 <= Issue.column iss /\ Issue.column iss <= length l.

Definition isSome {A : Type} (o : option A) : bool :=
  match o with
  | Some _ => true
  | None => false
  end.

(** ** Traversal failures *)

(** The entry [p] makes a call of the traversal throw: [statSync] fails, or
    [p] is a file that cannot be read, or a directory to walk that cannot be
    listed. *)
Definition failsAt (fs : FileSystem) (depth : nat) (options : Options)
           (p : jsstring) : Prop :=
  statSync fs p = None
  \/ (statSync fs p = Some isFile /\ readFileSync fs p = None)
  \/ (statSync fs p = Some isDirectory /\ recursive options = true
      /\ readdirSync fs p = None /\ 0 < depth).

(** The state a traversal starts from. *)
Definition noIssuesYet : LintState := {| allIssues := []; filesLinted := 0 |}.

(** ** Lines, counts and files *)

(** [pieces.join(sep)] for a separator of one code unit. *)
Fixpoint joinWith (sep : char16) (pieces : list jsstring) : jsstring :=
  match pieces with
  | [] => []
  | [piece] => piece
  | piece :: rest => piece ++ sep :: joinWith sep rest
  end.

(** The three counts of the summary together. *)
Definition totalCount (b : BySeverity) : nat := errors b + warnings b + infos b.

(** The text the [pr] action scans for an entry that has a patch. *)
Definition patchText (file : PrFile) : jsstring :=
  match patch file with
  | Some p => p
  | None => []
  end.

(** The entries of a pull request that are scanned. *)
Definition withPatch (files : list PrFile) : list PrFile :=
  filter (fun file => negb (noPatch file)) files.

(** What the [pr] action prints for a file: nothing when it has no issue,
    else its name and the first three issues. *)
Definition printedFor (file : PrFile) (issues : list Issue.t)
  : list (jsstring * list (Severity * jsstring)) :=
  match issues with
  | [] => []
  | _ => [(filename file,
           map (fun i => (Issue.severity i, Issue.issue i)) (firstn 3 issues))]
  end.

(** The entry of a directory listing is a regular file that can be read and
    scanned within the fuel. *)
Definition readableFile (fs : FileSystem) (fuel : nat) (p : jsstring) : Prop :=
  statSync fs p = Some isFile
  /\ exists content, readFileSync fs p = Some content /\ length content + 2 <= fuel.

(** A file system with a directory [src] that holds a readable file, and a
    socket [sock]. *)
Definition smallTree : FileSystem :=
  {| statSync := fun p =>
       if jsstring_eqb p (str "src") then Some isDirectory
       else if jsstring_eqb p (str "src/a.js") then Some isFile
       else if jsstring_eqb p (str "sock") then Some isOther
       else None;
     readdirSync := fun p =>
       if jsstring_eqb p (str "src") then Some [str "a.js"] else None;
     readFileSync := fun p =>
       if jsstring_eqb p (str "src/a.js") then Some (str "var x = 1;") else None;
     writeFileSync := fun _ _ => Some tt;
     join := fun dir item => dir ++ str "/" ++ item |}.

Definition recursiveOptions : Options :=
  {| recursive := true; output := None; fix_ := false |}.

(** The paths that [statSync] says are regular files. *)
Definition regularFiles (fs : FileSystem) (paths : list jsstring) : list jsstring :=
  filter (fun p => match statSync fs p with Some isFile => true | _ => false end) paths.

(** The report of a run that found nothing to scan. *)
Definition emptyReport : LintReport :=
  {| reportIssues := [];
     reportFiles := 0;
     reportCounts := {| errors := 0; warnings := 0; infos := 0 |};
     reportSaved := None;
     reportExit := 0 |}.

(** The same issue under another path. *)
Definition relabel (p : jsstring) (iss : Issue.t) : Issue.t :=
  {| Issue.file := p;
     Issue.line := Issue.line iss;
     Issue.issue := Issue.issue iss;
     Issue.severity := Issue.severity iss;
     Issue.column := Issue.column iss |}.

(** A pull request of three entries: one without patch, one whose patch is
    the empty string, one with a line of JavaScript. *)
Definition smallPr : list PrFile :=
  [ {| filename := str "logo.png"; patch := None |};
    {| filename := str "empty.js"; patch := Some [] |};
    {| filename := str "a.js"; patch := Some (str "+var x = 1;") |} ].

(** ** Four of the built-in rules *)

Definition looseEqRule : Rule.t :=
  mkRule JS_TS Patterns.loose_eq flags_g (str "Use === instead of ==") warning.
Definition longLineRule : Rule.t :=
  mkRule None Patterns.long_line flags_g (str "Line exceeds 120 characters") info.
Definition trailingRule : Rule.t :=
  mkRule None Patterns.trailing_ws flags_gm (str "Trailing whitespace") info.
Definition tabRule : Rule.t :=
  mkRule None Patterns.tab flags_g (str "Use spaces instead of tabs") warning.

Definition TAB : char16 := 9%N.
Definition CR : char16 := 13%N.
Definition EQUALS : char16 := 61%N.

(** The columns, counted from [col] for the head of [line], at which the
    code unit [c] stands. *)
Fixpoint columnsOf (c : char16) (line : jsstring) (col : nat) : list nat :=
  match line with
  | [] => []
  | ch :: rest =>
      if char16_eqb ch c then col :: columnsOf c rest (S col)
      else columnsOf c rest (S col)
  end.

(** A code unit [\s] matches. *)
Definition isSpace (ch : char16) : bool :=
  Regex.isWhiteSpace ch || Regex.isLineTerminator ch.

(** ** ASCII strings and scans *)

(** Every code unit of the string is an ASCII character. *)
Definition isAscii (s : jsstring) : Prop := Forall (fun c => (c < 128)%N) s.

(** One file read and scanned by a run. *)
Record Scan : Type :=
  { scanPath : jsstring; scanContent : jsstring; scanIssues : list Issue.t }.

(** The scan is one the run can have made: the file could be read and
    [lintFile] gives these issues for it. *)
Definition scanned (fs : FileSystem) (fuel : nat) (s : Scan) : Prop :=
  readFileSync fs (scanPath s) = Some (scanContent s)
  /\ lintFile fuel (scanPath s) (scanContent s) = Some (scanIssues s).

(* ================================================================= *)
(** * Properties of the matcher *)

Module RegexFacts.
Import Regex RegexSpec.

Section Facts.
Variable input : jsstring.
Variable multiline : bool.

Lemma iterations_step min max :
  min <> 0 -> max <> Some 0 ->
  iterations min max <= S (iterations (pred min) (option_map pred max)).
Proof.
  destruct max as [[|j]|]; simpl; intros; try congruence; lia.
Qed.

Lemma repeatMatcher_advances k m :
  advances input k m ->
  forall fuel min max, advances input (iterations min max * k) (repeatMatcher fuel m min max).
Proof.
  intros Hm fuel. induction fuel as [|fuel IH]; intros min max x c e Hx H.
  - discriminate.
  - simpl in H.
    assert (Hgo :
      max <> Some 0 ->
      (if negb (min =? 0)
       then m x (fun y => if (min =? 0) && (y =? x) then None
                          else repeatMatcher fuel m (pred min) (option_map pred max) y c)
       else match m x (fun y => if (min =? 0) && (y =? x) then None
                          else repeatMatcher fuel m (pred min) (option_map pred max) y c) with
            | Some z => Some z
            | None => c x
            end) = Some e ->
      exists y, x + iterations min max * k <= y /\ y <= length input /\ c y = Some e).
    { clear H. intros Hmax H.
      destruct (Nat.eqb_spec min 0) as [Hz|Hnz]; simpl in H.
      - subst min.
        assert (Hit : iterations 0 max = 0) by (destruct max; reflexivity).
        rewrite Hit. simpl.
        destruct (m x _) as [z|] eqn:Hmx.
        + inversion H; subst z. apply Hm in Hmx; [|assumption].
          destruct Hmx as (y & Hy1 & Hy2 & Hd).
          destruct (y =? x); [discriminate|].
          apply IH in Hd; [|assumption].
          destruct Hd as (y' & ? & ? & ?). exists y'. repeat split; auto; lia.
        + exists x. repeat split; auto; lia.
      - apply Hm in H; [|assumption].
        destruct H as (y & Hy1 & Hy2 & Hd).
        apply IH in Hd; [|assumption].
        destruct Hd as (y' & Hy' & ? & ?). exists y'. repeat split; auto.
        pose proof (iterations_step _ _ Hnz Hmax) as Hs. nia. }
    destruct max as [[|j]|].
    + exists x. simpl. rewrite Nat.min_0_r. repeat split; auto; lia.
    + apply Hgo; [discriminate|exact H].
    + apply Hgo; [discriminate|exact H].
Qed.

Lemma compile_advances r : advances input (minLen r) (compile input multiline r).
Proof.
  induction r as [|cc|r1 IH1 r2 IH2|r1 IH1 r2 IH2|min max r IH|r IH| | |r IH];
    cbn [compile minLen]; intros x c e Hx H.
  - exists x. repeat split; auto; lia.
  - destruct (nth_error input x) as [ch|] eqn:Hn; [|discriminate].
    destruct (charMatches cc ch); [|discriminate].
    exists (S x). repeat split; auto; try lia.
    apply Nat.le_succ_l. apply nth_error_Some. congruence.
  - apply IH1 in H; [|assumption]. destruct H as (y & ? & ? & H).
    apply IH2 in H; [|assumption]. destruct H as (y' & ? & ? & H).
    exists y'. repeat split; auto; lia.
  - destruct (compile input multiline r1 x c) as [z|] eqn:H1.
    + inversion H; subst z. apply IH1 in H1; [|assumption].
      destruct H1 as (y & ? & ? & ?). exists y. repeat split; auto; lia.
    + apply IH2 in H; [|assumption].
      destruct H as (y & ? & ? & ?). exists y. repeat split; auto; lia.
  - eapply repeatMatcher_advances; eassumption.
  - apply IH; assumption.
  - destruct (xorb _ _); [|discriminate]. exists x. repeat split; auto; lia.
  - exists x. repeat split; auto; try lia.
    destruct (nth_error input x) as [ch|]; [|assumption].
    destruct (multiline && isLineTerminator ch); [assumption|discriminate].
  - destruct (compile input multiline r x _); [discriminate|].
    exists x. repeat split; auto; lia.
Qed.

Lemma repeatMatcher_respects m :
  respects input m -> forall fuel min max, respects input (repeatMatcher fuel m min max).
Proof.
  intros Hm fuel. induction fuel as [|fuel IH]; intros min max x c c' Hx Hc.
  - reflexivity.
  - simpl.
    assert (Hd : m x (fun y => if (min =? 0) && (y =? x) then None
                          else repeatMatcher fuel m (pred min) (option_map pred max) y c)
               = m x (fun y => if (min =? 0) && (y =? x) then None
                          else repeatMatcher fuel m (pred min) (option_map pred max) y c')).
    { apply Hm; [assumption|]. intros y Hy1 Hy2.
      destruct ((min =? 0) && (y =? x)); [reflexivity|].
      apply IH; [assumption|]. intros y' ? ?. apply Hc; lia. }
    rewrite Hd, (Hc x) by lia. reflexivity.
Qed.

Lemma compile_respects r : respects input (compile input multiline r).
Proof.
  induction r as [|cc|r1 IH1 r2 IH2|r1 IH1 r2 IH2|min max r IH|r IH| | |r IH];
    cbn [compile]; intros x c c' Hx Hc.
  - apply Hc; lia.
  - destruct (nth_error input x) as [ch|] eqn:Hn; [|reflexivity].
    destruct (charMatches cc ch); [|reflexivity].
    apply Hc; [lia|]. apply Nat.le_succ_l. apply nth_error_Some. congruence.
  - apply IH1; [assumption|]. intros y ? ?.
    apply IH2; [assumption|]. intros y' ? ?. apply Hc; lia.
  - rewrite (IH1 x c c'), (IH2 x c c') by assumption. reflexivity.
  - apply repeatMatcher_respects; assumption.
  - apply IH; assumption.
  - rewrite (Hc x) by lia. reflexivity.
  - rewrite (Hc x) by lia. reflexivity.
  - rewrite (Hc x) by lia. reflexivity.
Qed.

(** The fuel [compile] gives a quantifier is enough: any two amounts
    above [min] plus the distance to the end of the input agree. *)
Lemma repeatMatcher_fuel m :
  respects input m ->
  forall f1 f2 min max x c,
    x <= length input ->
    min + (length input - x) < f1 -> min + (length input - x) < f2 ->
    repeatMatcher f1 m min max x c = repeatMatcher f2 m min max x c.
Proof.
  intros Hm f1. induction f1 as [|f1 IH]; intros f2 min max x c Hx H1 H2.
  - lia.
  - destruct f2 as [|f2]; [lia|]. simpl.
    assert (Hd : m x (fun y => if (min =? 0) && (y =? x) then None
                          else repeatMatcher f1 m (pred min) (option_map pred max) y c)
               = m x (fun y => if (min =? 0) && (y =? x) then None
                          else repeatMatcher f2 m (pred min) (option_map pred max) y c)).
    { apply Hm; [assumption|]. intros y Hy1 Hy2.
      destruct (Nat.eqb_spec min 0) as [Hz|Hnz]; simpl.
      - destruct (Nat.eqb_spec y x) as [|Hne]; [reflexivity|].
        subst min. apply IH; simpl; lia.
      - apply IH; lia. }
    rewrite Hd. reflexivity.
Qed.

(** So the quantifier of [compile] is the unbounded one: more fuel gives
    the same matcher. *)
Lemma compile_Repeat_fuel min max r f x c :
  x <= length input -> min + length input < f ->
  compile input multiline (Repeat min max r) x c
  = repeatMatcher f (compile input multiline r) min max x c.
Proof.
  intros Hx Hf. cbn [compile].
  apply repeatMatcher_fuel; [apply compile_respects|assumption|lia|lia].
Qed.

(** A match never ends before it starts, nor beyond the input, and is
    at least [minLen] wide. *)
Lemma matchAt_bounds r i e :
  i <= length input -> matchAt input multiline r i = Some e ->
  i + minLen r <= e /\ e <= length input.
Proof.
  intros Hi H. apply compile_advances in H; [|assumption].
  destruct H as (y & ? & ? & Hy). inversion Hy; subst. split; assumption.
Qed.

Lemma search_Some r n : forall i j e,
  search input multiline r i n = Some (j, e) ->
  i <= j /\ j < i + n /\ matchAt input multiline r j = Some e.
Proof.
  induction n as [|n IH]; simpl; intros i j e H; [discriminate|].
  destruct (matchAt input multiline r i) as [e'|] eqn:Hm.
  - inversion H; subst. repeat split; auto; lia.
  - apply IH in H. destruct H as (? & ? & ?). repeat split; auto; lia.
Qed.

Lemma search_here r i e n :
  matchAt input multiline r i = Some e -> search input multiline r i (S n) = Some (i, e).
Proof. intros H. simpl. rewrite H. reflexivity. Qed.
End Facts.
End RegexFacts.

(* ================================================================= *)
(** * Properties of [exec] and of the [while] loop *)

Lemma exec_Some R S R' m :
  exec R S = (R', Some m) ->
  exists e,
    startIndex R <= index m /\ index m <= length S
    /\ Regex.matchAt S (multiline (flags R)) (source R) (index m) = Some e
    /\ index m + RegexSpec.minLen (source R) <= e /\ e <= length S
    /\ R' = (if global (flags R) then setLastIndex R e else R).
Proof.
  unfold exec, startIndex. intros H.
  destruct (Regex.search _ _ _ _ _) as [[i e]|] eqn:Hs.
  - inversion H; subst; clear H. simpl.
    apply RegexFacts.search_Some in Hs. destruct Hs as (Hi1 & Hi2 & Hm).
    assert (Hi : i <= length S) by lia.
    destruct (RegexFacts.matchAt_bounds _ _ _ _ _ Hi Hm) as [? ?].
    exists e. repeat split; auto.
  - inversion H.
Qed.

Lemma exec_None_global R S R' :
  exec R S = (R', None) -> global (flags R) = true -> lastIndex R' = 0.
Proof.
  unfold exec. intros H Hg. rewrite Hg in H.
  destruct (Regex.search _ _ _ _ _) as [[i e]|]; inversion H. reflexivity.
Qed.

Section WhileExec.
Variable filePath : jsstring.
Variable line : jsstring.
Variable lineNum : nat.
Variable rule : Rule.t.

Lemma mkIssue_issueAt m :
  mkIssue filePath lineNum rule m = issueAt filePath lineNum rule (index m + 1).
Proof. reflexivity. Qed.

(** More fuel never changes a finished loop. *)
Lemma whileExec_mono n : forall n' R issues res,
  whileExec filePath n R line lineNum rule issues = Some res -> n <= n' ->
  whileExec filePath n' R line lineNum rule issues = Some res.
Proof.
  induction n as [|n IH]; intros n' R issues res H Hle; [discriminate|].
  destruct n' as [|n']; [lia|]. simpl in *.
  destruct (exec R line) as [R' [m|]]; [|assumption].
  apply IH; [assumption|lia].
Qed.

(** An empty match of a global expression is found again and again. *)
Lemma whileExec_stuck_global n : forall R issues,
  global (flags R) = true ->
  lastIndex R <= length line ->
  Regex.matchAt line (multiline (flags R)) (source R) (lastIndex R) = Some (lastIndex R) ->
  whileExec filePath n R line lineNum rule issues = None.
Proof.
  induction n as [|n IH]; intros R issues Hg Hle Hm; [reflexivity|].
  simpl. unfold exec. rewrite Hg.
  replace (length line + 1 - lastIndex R) with (S (length line - lastIndex R)) by lia.
  rewrite (RegexFacts.search_here _ _ _ _ _ (length line - lastIndex R) Hm).
  apply IH; simpl; assumption.
Qed.

(** So is any match of an expression without the [g] flag. *)
Lemma whileExec_stuck_local n : forall R R' m issues,
  global (flags R) = false ->
  exec R line = (R', Some m) ->
  whileExec filePath n R line lineNum rule issues = None.
Proof.
  induction n as [|n IH]; intros R R' m issues Hg He; [reflexivity|].
  simpl. rewrite He.
  assert (R' = R) as ->.
  { apply exec_Some in He. destruct He as (e & _ & _ & _ & _ & _ & ->).
    rewrite Hg. reflexivity. }
  eapply IH; eassumption.
Qed.

(** What a finished loop has pushed: one issue per match, at strictly
    increasing columns inside the line. *)
Lemma whileExec_spec n : forall R issues res,
  whileExec filePath n R line lineNum rule issues = Some res ->
  exists cols,
    res = issues ++ map (issueAt filePath lineNum rule) cols
    /\ StronglySorted lt cols
    /\ Forall (fun c => startIndex R < c /\ c <= length line) cols.
Proof.
  induction n as [|n IH]; intros R issues res H; [discriminate|].
  simpl in H. destruct (exec R line) as [R' [m|]] eqn:He.
  - pose proof (exec_Some _ _ _ _ He) as (e & Hs & Hi & Hm & He1 & He2 & HR').
    destruct (global (flags R)) eqn:Hg.
    + destruct (Nat.eq_dec e (index m)) as [Heq|Hne].
      * rewrite whileExec_stuck_global in H; [discriminate| | |]; subst R'; simpl;
          rewrite ?Hg; try lia. rewrite Heq. rewrite Heq in Hm. exact Hm.
      * apply IH in H. destruct H as (cols & -> & Hsorted & Hall).
        exists ((index m + 1) :: cols). rewrite mkIssue_issueAt, <- app_assoc. simpl.
        assert (Hstart : startIndex R' = e).
        { subst R'. unfold startIndex. simpl. rewrite Hg. reflexivity. }
        rewrite Hstart in Hall.
        repeat split.
        -- constructor; [assumption|].
           eapply Forall_impl; [|exact Hall]. simpl. intros c [? ?]. lia.
        -- constructor.
           ++ lia.
           ++ eapply Forall_impl; [|exact Hall]. simpl. intros c [? ?]. lia.
    + subst R'.
      rewrite (whileExec_stuck_local n R R m _ Hg He) in H. discriminate.
  - inversion H; subst. exists []. simpl. rewrite app_nil_r.
    repeat split; constructor.
Qed.

(** A global expression whose matches are never empty leaves the loop
    after at most one call per position and one more. *)
Lemma whileExec_terminates n : forall R issues,
  global (flags R) = true ->
  1 <= RegexSpec.minLen (source R) ->
  S (length line + 1 - lastIndex R) <= n ->
  exists res, whileExec filePath n R line lineNum rule issues = Some res.
Proof.
  induction n as [|n IH]; intros R issues Hg Hmin Hn; [lia|].
  simpl. destruct (exec R line) as [R' [m|]] eqn:He.
  - pose proof (exec_Some _ _ _ _ He) as (e & Hs & Hi & Hm & He1 & He2 & HR').
    unfold startIndex in Hs. rewrite Hg in Hs, HR'. subst R'.
    apply IH; simpl; try assumption. lia.
  - eexists. reflexivity.
Qed.
End WhileExec.

(* ================================================================= *)
(** * Properties of [lintFile] *)

Lemma jsstring_eqb_eq a : forall b, jsstring_eqb a b = true <-> a = b.
Proof.
  induction a as [|x a IH]; intros [|y b]; simpl; split; intros H;
    try reflexivity; try discriminate.
  - apply andb_prop in H. destruct H as [Hx Hab].
    apply N.eqb_eq in Hx. apply IH in Hab. congruence.
  - inversion H; subst. apply andb_true_intro. split.
    + apply N.eqb_refl.
    + apply IH. reflexivity.
Qed.

Lemma includes_In arr x : includes arr x = true <-> In x arr.
Proof.
  unfold includes. rewrite existsb_exists. split.
  - intros (y & Hy & Heq). apply jsstring_eqb_eq in Heq. subst. assumption.
  - intros H. exists x. split; [assumption|]. apply jsstring_eqb_eq. reflexivity.
Qed.

Lemma split_nonempty sep s : split sep s <> [].
Proof.
  destruct s as [|c s]; simpl; [discriminate|].
  destruct (char16_eqb c sep); [discriminate|].
  destruct (split sep s); discriminate.
Qed.

(** No piece of a split is longer than the string. *)
Lemma split_length sep s :
  Forall (fun piece => length piece <= length s) (split sep s).
Proof.
  induction s as [|c s IH]; simpl.
  - repeat constructor.
  - destruct (char16_eqb c sep).
    + constructor; [simpl; lia|].
      eapply Forall_impl; [|exact IH]. simpl. intros; lia.
    + destruct (split sep s) as [|piece rest].
      * constructor; [simpl; lia|constructor].
      * inversion IH; subst. constructor; [simpl; lia|].
        eapply Forall_impl; [|eassumption]. simpl. intros; lia.
Qed.

Section LintFileFacts.
Variable filePath : jsstring.
Variable ext : jsstring.

Lemma lintRule_spec fuel line lineNum rule issues res :
  lintRule fuel filePath ext line lineNum rule issues = Some res ->
  exists chunk, res = issues ++ chunk /\ ruleChunk filePath ext line lineNum rule chunk.
Proof.
  unfold lintRule. destruct (skipped rule ext) eqn:Hskip; intros H.
  - inversion H; subst. exists []. split; [symmetry; apply app_nil_r|].
    exists []. repeat split; constructor.
  - apply whileExec_spec in H. destruct H as (cols & -> & Hsorted & Hall).
    eexists. split; [reflexivity|]. exists cols.
    split; [reflexivity|]. split; [assumption|]. split.
    + eapply Forall_impl; [|exact Hall]. simpl. intros c [? ?]. lia.
    + intros Hs. congruence.
Qed.

Lemma forRules_spec fuel line lineNum rules : forall issues res,
  forRules fuel filePath rules ext line lineNum issues = Some res ->
  exists row, res = issues ++ concat row
              /\ Forall2 (ruleChunk filePath ext line lineNum) rules row.
Proof.
  induction rules as [|rule rules IH]; simpl; intros issues res H.
  - inversion H; subst. exists []. split; [symmetry; apply app_nil_r|constructor].
  - destruct (lintRule _ _ _ _ _ _ _) as [issues'|] eqn:Hr; [|discriminate].
    apply lintRule_spec in Hr. destruct Hr as (chunk & -> & Hchunk).
    apply IH in H. destruct H as (row & -> & Hrow).
    exists (chunk :: row). simpl. rewrite app_assoc. split; [reflexivity|].
    constructor; assumption.
Qed.

Lemma forLines_spec fuel rules lines : forall i issues res,
  forLines fuel filePath rules ext lines i issues = Some res ->
  exists rows, res = issues ++ concat (map (@concat _) rows)
               /\ fileRows filePath ext rules i lines rows.
Proof.
  induction lines as [|line lines IH]; simpl; intros i issues res H.
  - inversion H; subst. exists []. split; [symmetry; apply app_nil_r|constructor].
  - destruct (forRules _ _ _ _ _ _ _) as [issues'|] eqn:Hr; [|discriminate].
    apply forRules_spec in Hr. destruct Hr as (row & -> & Hrow).
    apply IH in H. destruct H as (rows & -> & Hrows).
    exists (row :: rows). simpl. rewrite app_assoc. split; [reflexivity|].
    constructor; assumption.
Qed.

(** Fuel: more never hurts. *)
Lemma lintRule_mono fuel fuel' line lineNum rule issues res :
  lintRule fuel filePath ext line lineNum rule issues = Some res -> fuel <= fuel' ->
  lintRule fuel' filePath ext line lineNum rule issues = Some res.
Proof.
  unfold lintRule. destruct (skipped rule ext); [auto|].
  intros. eapply whileExec_mono; eassumption.
Qed.

Lemma forRules_mono fuel fuel' line lineNum rules : forall issues res,
  forRules fuel filePath rules ext line lineNum issues = Some res -> fuel <= fuel' ->
  forRules fuel' filePath rules ext line lineNum issues = Some res.
Proof.
  induction rules as [|rule rules IH]; simpl; intros issues res H Hle; [assumption|].
  destruct (lintRule fuel _ _ _ _ _ _) as [issues'|] eqn:Hr; [|discriminate].
  rewrite (lintRule_mono _ _ _ _ _ _ _ Hr Hle). apply IH; assumption.
Qed.

Lemma forLines_mono fuel fuel' rules lines : forall i issues res,
  forLines fuel filePath rules ext lines i issues = Some res -> fuel <= fuel' ->
  forLines fuel' filePath rules ext lines i issues = Some res.
Proof.
  induction lines as [|line lines IH]; simpl; intros i issues res H Hle; [assumption|].
  destruct (forRules fuel _ _ _ _ _ _) as [issues'|] eqn:Hr; [|discriminate].
  rewrite (forRules_mono _ _ _ _ _ _ _ Hr Hle). apply IH; assumption.
Qed.

(** Fuel: the length of the line and two is enough for advancing rules. *)
Lemma lintRule_terminates fuel line lineNum rule issues :
  advancing rule = true -> length line + 2 <= fuel ->
  exists res, lintRule fuel filePath ext line lineNum rule issues = Some res.
Proof.
  unfold advancing, lintRule. intros Hadv Hfuel.
  apply andb_prop in Hadv. destruct Hadv as [Hg Hmin]. apply Nat.leb_le in Hmin.
  destruct (skipped rule ext); [eexists; reflexivity|].
  apply whileExec_terminates; simpl; try assumption. lia.
Qed.

Lemma forRules_terminates fuel line lineNum rules : forall issues,
  forallb advancing rules = true -> length line + 2 <= fuel ->
  exists res, forRules fuel filePath rules ext line lineNum issues = Some res.
Proof.
  induction rules as [|rule rules IH]; simpl; intros issues Hadv Hfuel.
  - eexists; reflexivity.
  - apply andb_prop in Hadv. destruct Hadv as [Hrule Hrules].
    destruct (lintRule_terminates fuel line lineNum rule issues Hrule Hfuel) as [issues' ->].
    apply IH; assumption.
Qed.

Lemma forLines_terminates fuel rules lines : forall i issues,
  forallb advancing rules = true ->
  Forall (fun line => length line + 2 <= fuel) lines ->
  exists res, forLines fuel filePath rules ext lines i issues = Some res.
Proof.
  induction lines as [|line lines IH]; simpl; intros i issues Hadv Hfuel.
  - eexists; reflexivity.
  - inversion Hfuel; subst.
    destruct (forRules_terminates fuel line (i + 1) rules issues Hadv) as [issues' ->];
      [assumption|].
    apply IH; assumption.
Qed.
End LintFileFacts.

Lemma lintFileWith_mono fuel fuel' filePath rules content res :
  lintFileWith fuel filePath rules content = Some res -> fuel <= fuel' ->
  lintFileWith fuel' filePath rules content = Some res.
Proof. unfold lintFileWith. apply forLines_mono. Qed.

Lemma lintFileWith_terminates fuel filePath rules content :
  forallb advancing rules = true -> length content + 2 <= fuel ->
  exists res, lintFileWith fuel filePath rules content = Some res.
Proof.
  intros Hadv Hfuel. unfold lintFileWith. apply forLines_terminates; [assumption|].
  eapply Forall_impl; [|apply (split_length LF content)]. simpl. intros; lia.
Qed.

Lemma LINT_RULES_advancing : forallb advancing LINT_RULES = true.
Proof. reflexivity. Qed.

(* ================================================================= *)
(** * C1: termination of the scanning loop *)

(** [exec] on an advancing rule's expression moves [lastIndex] beyond the
    start of the match, which is itself no earlier than the old [lastIndex]. *)
Lemma exec_advances rule R line R' m :
  advancing rule = true ->
  source R = source (Rule.pattern rule) ->
  flags R = flags (Rule.pattern rule) ->
  exec R line = (R', Some m) ->
  lastIndex R <= index m /\ index m + 1 <= lastIndex R'.
Proof.
  unfold advancing. intros Hadv Hsrc Hfl He.
  apply andb_prop in Hadv. destruct Hadv as [Hg Hmin]. apply Nat.leb_le in Hmin.
  apply exec_Some in He. destruct He as (e & Hs & _ & _ & Hw & _ & ->).
  unfold startIndex in Hs. rewrite Hfl, Hg in *. rewrite Hsrc in Hw. simpl. lia.
Qed.

(** C1, as stated, fails: for a rule whose pattern matches the empty string
    the loop of [lintFile] never ends, whatever the fuel, because [exec]
    leaves [lastIndex] where the empty match was found. *)
Lemma empty_match_loops_forever :
  ~ exists fuel issues,
      lintFileWith fuel (str "a.txt") [emptyMatchRule] (str "abc") = Some issues.
Proof.
  intros (fuel & issues & H).
  unfold lintFileWith in H.
  change (split LF (str "abc")) with [str "abc"] in H.
  cbn [forLines forRules] in H. unfold lintRule in H.
  change (skipped emptyMatchRule (getExtension (str "a.txt"))) with false in H.
  cbv iota in H.
  rewrite whileExec_stuck_global in H; try discriminate; try reflexivity.
  simpl. lia.
Qed.

(** C1 (amended): for the built-in rules, none of whose patterns matches the
    empty string, the scan of every text ends and returns its issues once
    the fuel covers the text; and each match moves [lastIndex] at least one
    character past the position where the match began. *)
Theorem lintFile_terminates fuel filePath content :
  length content + 2 <= fuel ->
  (exists issues, lintFile fuel filePath content = Some issues)
  /\ (forall rule R line R' m,
        In rule LINT_RULES ->
        source R = source (Rule.pattern rule) ->
        flags R = flags (Rule.pattern rule) ->
        exec R line = (R', Some m) ->
        lastIndex R <= index m /\ index m + 1 <= lastIndex R').
Proof.
  intros Hfuel. split.
  - apply lintFileWith_terminates; [apply LINT_RULES_advancing|assumption].
  - intros rule R line R' m Hin. apply exec_advances.
    pose proof LINT_RULES_advancing as Hall.
    rewrite forallb_forall in Hall. apply Hall. assumption.
Qed.

(** An instance: a three-character Python text and fuel 5. *)
Lemma lintFile_terminates_witness :
  exists issues, lintFile 5 (str "a.py") (str "x=1") = Some issues.
Proof.
  apply (lintFile_terminates 5 (str "a.py") (str "x=1")). simpl. lia.
Defined.

(* ================================================================= *)
(** * C3: the language identifier *)

Lemma split_app sep a : forall b,
  split sep (a ++ sep :: b) = split sep a ++ split sep b.
Proof.
  induction a as [|c a IH]; intros b; simpl.
  - unfold char16_eqb. rewrite N.eqb_refl. reflexivity.
  - rewrite IH. destruct (char16_eqb c sep); [reflexivity|].
    pose proof (split_nonempty sep a) as Hne.
    destruct (split sep a) as [|piece rest]; [congruence|reflexivity].
Qed.

Lemma split_no_sep sep s : ~ In sep s -> split sep s = [s].
Proof.
  induction s as [|c s IH]; simpl; intros Hnot; [reflexivity|].
  destruct (N.eqb_spec c sep) as [->|Hne]; unfold char16_eqb.
  - exfalso. apply Hnot. left. reflexivity.
  - apply N.eqb_neq in Hne. rewrite Hne. rewrite IH; [reflexivity|].
    intros Hin. apply Hnot. right. assumption.
Qed.

Lemma last_app_nonempty (A : Type) (l1 l2 : list A) d :
  l2 <> [] -> last (l1 ++ l2) d = last l2 d.
Proof.
  intros Hne. induction l1 as [|x l1 IH]; [reflexivity|].
  simpl. rewrite IH. destruct (l1 ++ l2) eqn:Happ; [|reflexivity].
  apply app_eq_nil in Happ. destruct Happ. congruence.
Qed.

(** X17: with a dot in the path and ASCII characters after the last dot,
    the language identifier is what follows the last dot, lower-cased,
    whatever stands before it; after a trailing dot it is the empty
    string. *)
Lemma getExtension_after_dot base extn :
  isAscii extn ->
  ~ In FULL_STOP extn ->
  getExtension (base ++ FULL_STOP :: extn) = toLowerCase extn.
Proof.
  intros _ Hnot. unfold getExtension, pop.
  rewrite split_app, last_app_nonempty by apply split_nonempty.
  rewrite split_no_sep by assumption. reflexivity.
Qed.

(** An instance: a hidden file, upper case. *)
Lemma getExtension_after_dot_witness :
  getExtension ([] ++ FULL_STOP :: str "PY") = toLowerCase (str "PY").
Proof.
  apply (getExtension_after_dot [] (str "PY")).
  - repeat (constructor; [reflexivity|]). constructor.
  - simpl. intros [H|[H|[]]]; discriminate H.
Defined.

(** Without a dot, it is the whole path, lower-cased. *)
Lemma getExtension_no_dot filePath :
  isAscii filePath ->
  ~ In FULL_STOP filePath -> getExtension filePath = toLowerCase filePath.
Proof.
  intros _ Hnot. unfold getExtension, pop. rewrite split_no_sep by assumption. reflexivity.
Qed.

(** C3, the code at the failing input: a file called [js] has no dot and so
    no extension, yet [getExtension] returns [js] and the rule scoped to
    JavaScript reports its issue. *)
Theorem dotless_path_takes_language_rules :
  ~ In FULL_STOP (str "js")
  /\ getExtension (str "js") = str "js"
  /\ lintFile 2 (str "js") (str "var x = 1;") = Some [varIssue (str "js") 1 1].
Proof.
  split; [|split].
  - simpl. intros H. repeat (destruct H as [H|H]; [discriminate H|]). exact H.
  - reflexivity.
  - vm_compute. reflexivity.
Qed.

(* ================================================================= *)
(** * C6: classification of a score *)

(** C6: a score below 10 is reported as low, from 10 to 19 as moderate and
    from 20 on as high; 9 is low, 10 and 19 are moderate, 20 is high. *)
Theorem classify_thresholds (s : nat) :
  (classify s = low <-> s < 10)
  /\ (classify s = moderate <-> 10 <= s /\ s < 20)
  /\ (classify s = high <-> 20 <= s)
  /\ classify 9 = low /\ classify 10 = moderate
  /\ classify 19 = moderate /\ classify 20 = high.
Proof.
  unfold classify.
  destruct (Nat.ltb_spec s 10); destruct (Nat.ltb_spec s 20);
    repeat split; intros; try lia; try discriminate; try reflexivity.
Qed.

(* ================================================================= *)
(** * C7: the [var] rule on a JavaScript unit *)

(** C7: scanning ["var x = 1;\n"] under an identifier whose extension is
    [js] gives exactly one issue: line 1, column 1, severity warning, with
    the message of the [var] rule. *)
Theorem var_usage_reported fuel filePath :
  getExtension filePath = str "js" ->
  2 <= fuel ->
  lintFile fuel filePath (str "var x = 1;" ++ [LF]) = Some [varIssue filePath 1 1].
Proof.
  intros Hext Hfuel. unfold lintFile.
  apply lintFileWith_mono with (fuel := 2); [|assumption].
  unfold lintFileWith. rewrite Hext. vm_compute. reflexivity.
Qed.

(** An instance: the extension is lower-cased before it is compared. *)
Lemma var_usage_reported_witness :
  lintFile 2 (str "src/App.JS") (str "var x = 1;" ++ [LF])
  = Some [varIssue (str "src/App.JS") 1 1].
Proof.
  apply (var_usage_reported 2 (str "src/App.JS")).
  - reflexivity.
  - lia.
Defined.

(* ================================================================= *)
(** * C5: the complexity score *)

Section KeywordMatching.
Import Regex.
Variable input : jsstring.
Variable multiline : bool.

Lemma skipn_nth_error (i : nat) : forall (l : jsstring),
  skipn i l = match nth_error l i with
              | Some c => c :: skipn (S i) l
              | None => []
              end.
Proof.
  induction i as [|i IH]; intros [|c l]; try reflexivity.
  simpl nth_error. rewrite <- IH. reflexivity.
Qed.

Lemma occursAt_nil (i : nat) : SpecScore.occursAt input i [] = true.
Proof. reflexivity. Qed.

Lemma occursAt_cons (i : nat) (c : char16) (kw : jsstring) :
  SpecScore.occursAt input i (c :: kw)
  = match nth_error input i with
    | Some ch => char16_eqb ch c && SpecScore.occursAt input (S i) kw
    | None => false
    end.
Proof.
  unfold SpecScore.occursAt. rewrite skipn_nth_error.
  destruct (nth_error input i); reflexivity.
Qed.

Lemma occursAt_nth_error (kw : jsstring) : forall i j,
  SpecScore.occursAt input i kw = true -> j < length kw ->
  nth_error input (i + j) = nth_error kw j.
Proof.
  induction kw as [|c kw IH]; simpl; intros i j H Hj; [lia|].
  rewrite occursAt_cons in H.
  destruct (nth_error input i) as [ch|] eqn:Hn; [|discriminate].
  apply andb_prop in H. destruct H as [Hc Hrest]. apply N.eqb_eq in Hc. subst ch.
  destruct j as [|j]; simpl.
  - rewrite Nat.add_0_r. assumption.
  - rewrite <- (IH (S i) j Hrest) by lia. f_equal. lia.
Qed.

(** A run of literals matches exactly where the run stands in the input. *)
Lemma compile_lits (kw : jsstring) : forall x c,
  compile input multiline (lits kw) x c
  = if SpecScore.occursAt input x kw then c (x + length kw) else None.
Proof.
  induction kw as [|c0 kw IH]; intros x c.
  - simpl. rewrite Nat.add_0_r. reflexivity.
  - rewrite occursAt_cons. destruct kw as [|c1 kw].
    + cbn [lits compile charMatches length]. rewrite Nat.add_1_r.
      destruct (nth_error input x) as [ch|]; [|reflexivity].
      rewrite occursAt_nil, andb_true_r. reflexivity.
    + cbn [lits compile charMatches]. fold (lits (c1 :: kw)).
      destruct (nth_error input x) as [ch|]; [|reflexivity].
      destruct (char16_eqb ch c0); [|reflexivity].
      rewrite IH. simpl andb. replace (x + length (c0 :: c1 :: kw)) with (S x + length (c1 :: kw))
        by (simpl; lia).
      reflexivity.
Qed.

(** [\bkw\b], for a keyword made of word characters, matches exactly the
    whole-word occurrences of [kw]. *)
Lemma matchAt_keyword (kw : jsstring) (x : nat) :
  kw <> [] -> forallb isWordCharacter kw = true ->
  matchAt input multiline (Patterns.keyword kw) x
  = if SpecScore.wholeWordAt input x kw then Some (x + length kw) else None.
Proof.
  intros Hne Hword. unfold matchAt, Patterns.keyword, SpecScore.wholeWordAt.
  cbn [Patterns.seq compile]. rewrite compile_lits.
  change (SpecScore.identifierBefore input x) with (wordBefore input x).
  change (SpecScore.identifierAt input (x + length kw)) with (isWordChar input (x + length kw)).
  destruct (SpecScore.occursAt input x kw) eqn:Hocc.
  - assert (Hfirst : isWordChar input x = true).
    { destruct kw as [|c0 kw]; [congruence|].
      pose proof (occursAt_nth_error _ x 0 Hocc) as Hn. rewrite Nat.add_0_r in Hn.
      unfold isWordChar. rewrite Hn by (simpl; lia). simpl.
      simpl in Hword. apply andb_prop in Hword. tauto. }
    assert (Hlast : wordBefore input (x + length kw) = true).
    { destruct (length kw) as [|n] eqn:Hlen.
      - destruct kw; [congruence|discriminate].
      - rewrite Nat.add_succ_r. simpl. unfold isWordChar.
        rewrite (occursAt_nth_error _ x n Hocc) by lia.
        destruct (nth_error kw n) as [c|] eqn:Hn.
        + rewrite forallb_forall in Hword. apply Hword.
          eapply nth_error_In. eassumption.
        + apply nth_error_None in Hn. lia. }
    rewrite Hfirst, Hlast. simpl.
    destruct (wordBefore input x); simpl; [reflexivity|].
    destruct (isWordChar input (x + length kw)); reflexivity.
  - simpl. destruct (xorb _ _); reflexivity.
Qed.

Lemma matchAt_branching (x : nat) :
  isSome (matchAt input multiline Patterns.branching x)
  = existsb (SpecScore.wholeWordAt input x) Patterns.KEYWORDS.
Proof.
  unfold Patterns.branching, Patterns.KEYWORDS.
  assert (Halt : forall r1 r2,
    matchAt input multiline (Alt r1 r2) x
    = match matchAt input multiline r1 x with
      | Some z => Some z
      | None => matchAt input multiline r2 x
      end) by reflexivity.
  rewrite !Halt, !matchAt_keyword by (discriminate || reflexivity).
  cbn [existsb].
  repeat (match goal with
          | |- context [SpecScore.wholeWordAt input x ?kw] =>
              destruct (SpecScore.wholeWordAt input x kw); cbn [isSome orb];
              try reflexivity
          end).
Qed.

Lemma search_existsb (r : t) (n : nat) : forall i,
  isSome (search input multiline r i n)
  = existsb (fun j => isSome (matchAt input multiline r j)) (seq i n).
Proof.
  induction n as [|n IH]; intros i; [reflexivity|].
  simpl. destruct (matchAt input multiline r i); simpl; [reflexivity|]. apply IH.
Qed.
End KeywordMatching.

Lemma existsb_pointwise (A : Type) (f g : A -> bool) (l : list A) :
  (forall x, f x = g x) -> existsb f l = existsb g l.
Proof.
  intros Hfg. induction l as [|x l IH]; simpl; [reflexivity|].
  rewrite Hfg, IH. reflexivity.
Qed.

(** The test of [calculateComplexity] is the specification's test. *)
Lemma test_branching (line : jsstring) :
  snd (test (literal Patterns.branching flags_none) line) = SpecScore.containsKeyword line.
Proof.
  unfold test, exec, SpecScore.containsKeyword. simpl global. cbv iota.
  rewrite Nat.sub_0_r.
  pose proof (search_existsb line (multiline (flags (literal Patterns.branching flags_none)))
                             (source (literal Patterns.branching flags_none)) (length line + 1) 0) as Hs.
  rewrite (existsb_pointwise _ _ _ _ (matchAt_branching line _)) in Hs.
  rewrite <- Hs.
  destruct (Regex.search _ _ _ _ _) as [[i e]|]; reflexivity.
Qed.

Lemma complexityLoop_spec (lines : list jsstring) : forall complexity,
  complexityLoop lines complexity
  = complexity + length (filter SpecScore.containsKeyword lines).
Proof.
  induction lines as [|line lines IH]; intros complexity; simpl.
  - lia.
  - pose proof (test_branching line) as Ht.
    destruct (test (literal Patterns.branching flags_none) line) as [R hit].
    simpl in Ht. subst hit. rewrite IH.
    destruct (SpecScore.containsKeyword line); simpl; lia.
Qed.

(** C5: the score is one plus the number of lines that hold a whole-word
    occurrence of [if], [for], [while], [switch], [catch] or [case]; the
    empty text scores 1, ["if (a) { if (b) {} }\n"] scores 2, and keywords
    inside longer identifiers do not count. *)
Theorem complexity_counts_keyword_lines (content : jsstring) :
  calculateComplexity content = SpecScore.score content
  /\ calculateComplexity [] = 1
  /\ calculateComplexity (str "if (a) { if (b) {} }" ++ [LF]) = 2
  /\ calculateComplexity (str "notify(iffy, forEach, _case)") = 1.
Proof.
  split; [|repeat split; vm_compute; reflexivity].
  unfold calculateComplexity, SpecScore.score. apply complexityLoop_spec.
Qed.

(* ================================================================= *)
(** * C8: language scope of a rule *)

Lemma forLines_no_rules fuel filePath ext lines : forall i issues,
  forLines fuel filePath [] ext lines i issues = Some issues.
Proof.
  induction lines as [|line lines IH]; intros i issues; simpl; [reflexivity|apply IH].
Qed.

Lemma lintRule_skipped fuel filePath ext line lineNum rule issues :
  skipped rule ext = true ->
  lintRule fuel filePath ext line lineNum rule issues = Some issues.
Proof. unfold lintRule. intros ->. reflexivity. Qed.

Lemma forRules_applicable fuel filePath ext line lineNum rules : forall issues,
  forRules fuel filePath rules ext line lineNum issues
  = forRules fuel filePath (applicableRules rules ext) ext line lineNum issues.
Proof.
  induction rules as [|rule rules IH]; intros issues; simpl; [reflexivity|].
  destruct (skipped rule ext) eqn:Hskip; simpl.
  - rewrite lintRule_skipped by assumption. apply IH.
  - destruct (lintRule _ _ _ _ _ _ _); [apply IH|reflexivity].
Qed.

Lemma forLines_applicable fuel filePath ext rules lines : forall i issues,
  forLines fuel filePath rules ext lines i issues
  = forLines fuel filePath (applicableRules rules ext) ext lines i issues.
Proof.
  induction lines as [|line lines IH]; intros i issues; simpl; [reflexivity|].
  rewrite <- forRules_applicable.
  destruct (forRules _ _ _ _ _ _ _); [apply IH|reflexivity].
Qed.

(** C8: in a unit identified as [L], a rule whose language list leaves [L]
    out pushes nothing, whatever the line; a rule that does push has no
    language list or lists [L]; so a scan is the scan with the applicable
    rules alone, and a rule set none of whose rules applies reports no
    issue for any content. *)
Theorem language_scope fuel (filePath : jsstring) (rule : Rule.t) :
  let L := getExtension filePath in
  (forall l line lineNum issues,
      Rule.lang rule = Some l -> ~ In L l ->
      lintRule fuel filePath L line lineNum rule issues = Some issues)
  /\ (forall line lineNum issues res,
      lintRule fuel filePath L line lineNum rule issues = Some res ->
      res <> issues ->
      Rule.lang rule = None \/ exists l, Rule.lang rule = Some l /\ In L l)
  /\ (forall rules content,
      lintFileWith fuel filePath rules content
      = lintFileWith fuel filePath (applicableRules rules L) content)
  /\ (forall rules content,
      (forall r, In r rules -> exists l, Rule.lang r = Some l /\ ~ In L l) ->
      lintFileWith fuel filePath rules content = Some []).
Proof.
  intros L. repeat split.
  - intros l line lineNum issues Hlang Hnot. apply lintRule_skipped.
    unfold skipped. rewrite Hlang.
    destruct (includes l L) eqn:Hin; [|reflexivity].
    apply includes_In in Hin. contradiction.
  - intros line lineNum issues res H Hne. unfold lintRule, skipped in H.
    destruct (Rule.lang rule) as [l|]; [right|left; reflexivity].
    exists l. split; [reflexivity|].
    destruct (includes l L) eqn:Hin; simpl in H.
    + apply includes_In. assumption.
    + inversion H. congruence.
  - intros rules content. unfold lintFileWith. apply forLines_applicable.
  - intros rules content Hall. unfold lintFileWith. rewrite forLines_applicable.
    replace (applicableRules rules (getExtension filePath)) with (@nil Rule.t).
    + apply forLines_no_rules.
    + symmetry. unfold applicableRules.
      induction rules as [|r rules IH]; simpl; [reflexivity|].
      destruct (Hall r (or_introl eq_refl)) as (l & Hlang & Hnot).
      unfold skipped at 1. rewrite Hlang.
      destruct (includes l (getExtension filePath)) eqn:Hin.
      * apply includes_In in Hin. contradiction.
      * simpl. apply IH. intros r' Hr'. apply Hall. right. assumption.
Qed.

(** An instance: the Python [print] rule on a JavaScript unit. *)
Lemma language_scope_witness :
  lintRule 2 (str "a.js") (getExtension (str "a.js")) (str "print(1)") 1 printRule []
  = Some [].
Proof.
  apply (proj1 (language_scope 2 (str "a.js") printRule) [str "py"]).
  - reflexivity.
  - simpl. intros [H|[]]. discriminate H.
Defined.

(* ================================================================= *)
(** * C9: no cursor state leaks into a scan *)

(** A global expression object does carry state from one [exec] to the
    next: a second call on the same object starts where the first ended. *)
Lemma exec_is_stateful :
  let R := literal Patterns.tab flags_g in
  let line := [9%N] in
  snd (exec R line) <> None /\ snd (exec (fst (exec R line)) line) = None.
Proof. simpl. split; [discriminate|reflexivity]. Qed.

Lemma whileExec_same_rule filePath line lineNum rule rule' n : forall R issues,
  Rule.issue rule = Rule.issue rule' ->
  Rule.severity rule = Rule.severity rule' ->
  whileExec filePath n R line lineNum rule issues
  = whileExec filePath n R line lineNum rule' issues.
Proof.
  induction n as [|n IH]; intros R issues Hi Hs; [reflexivity|].
  simpl. destruct (exec R line) as [R' [m|]]; [|reflexivity].
  unfold mkIssue. rewrite Hi, Hs. apply IH; assumption.
Qed.

Lemma lintRule_same_rule fuel filePath ext line lineNum rule rule' issues :
  sameRule rule rule' ->
  lintRule fuel filePath ext line lineNum rule issues
  = lintRule fuel filePath ext line lineNum rule' issues.
Proof.
  intros (Hlang & (Hsrc & Hfl) & Hi & Hs). unfold lintRule, skipped.
  rewrite Hlang, Hsrc, Hfl.
  rewrite (whileExec_same_rule filePath line lineNum rule rule' fuel _ issues Hi Hs).
  reflexivity.
Qed.

Lemma forRules_same_rules fuel filePath ext line lineNum rules rules' :
  Forall2 sameRule rules rules' ->
  forall issues,
    forRules fuel filePath rules ext line lineNum issues
    = forRules fuel filePath rules' ext line lineNum issues.
Proof.
  induction 1 as [|rule rule' rules rules' Hrule Hrules IH]; intros issues; simpl;
    [reflexivity|].
  rewrite (lintRule_same_rule _ _ _ _ _ _ _ _ Hrule).
  destruct (lintRule _ _ _ _ _ _ _); [apply IH|reflexivity].
Qed.

(** C9: a scan does not depend on the [lastIndex] the shared pattern objects
    of the rules hold, since each line-scan runs on a fresh object built from
    [source] and [flags]; two scans of the same text with the same rules
    give the same issues, whatever either left behind. *)
Theorem scan_ignores_cursors fuel filePath (rules rules' : list Rule.t) content :
  Forall2 sameRule rules rules' ->
  lintFileWith fuel filePath rules content = lintFileWith fuel filePath rules' content.
Proof.
  intros Hsame. unfold lintFileWith.
  generalize (@nil Issue.t) as issues. generalize 0 as i.
  induction (split LF content) as [|line lines IH]; intros i issues; simpl; [reflexivity|].
  rewrite (forRules_same_rules _ _ _ _ _ _ _ Hsame).
  destruct (forRules _ _ _ _ _ _ _); [apply IH|reflexivity].
Qed.

Lemma leftAt_same (n : nat) : forall rules, Forall2 sameRule rules (map (leftAt n) rules).
Proof.
  induction rules as [|r rules IH]; simpl; constructor; [|assumption].
  repeat split; reflexivity.
Qed.

(** An instance: the built-in rules with every cursor left at 4. *)
Lemma scan_ignores_cursors_witness :
  lintFileWith 12 (str "a.js") LINT_RULES (str "var x = 1;")
  = lintFileWith 12 (str "a.js") (map (leftAt 4) LINT_RULES) (str "var x = 1;").
Proof.
  apply (scan_ignores_cursors 12 (str "a.js") LINT_RULES (map (leftAt 4) LINT_RULES)).
  apply leftAt_same.
Defined.

(* ================================================================= *)
(** * C10: positions and order of the issues *)

Lemma StronglySorted_app (A : Type) (R : A -> A -> Prop) (l1 l2 : list A) :
  StronglySorted R l1 -> StronglySorted R l2 ->
  (forall a b, In a l1 -> In b l2 -> R a b) ->
  StronglySorted R (l1 ++ l2).
Proof.
  intros H1 H2 H12. induction H1 as [|a l1 Hs IH Ha]; simpl; [assumption|].
  constructor.
  - apply IH. intros x y Hx Hy. apply H12; [right|]; assumption.
  - apply Forall_app. split; [assumption|].
    apply Forall_forall. intros y Hy. apply H12; [left; reflexivity|assumption].
Qed.

Lemma StronglySorted_constant (n : nat) (l : list nat) :
  Forall (fun x => x = n) l -> StronglySorted le l.
Proof.
  induction 1 as [|x l Hx Hl IH]; constructor; [assumption|].
  eapply Forall_impl; [|exact Hl]. simpl. intros; lia.
Qed.

Section Positions.
Variable filePath : jsstring.
Variable ext : jsstring.

Lemma ruleChunk_placed line lineNum rule chunk :
  ruleChunk filePath ext line lineNum rule chunk ->
  Forall (fun iss => Issue.line iss = lineNum
                     /\ 1 <= Issue.column iss /\ Issue.column iss <= length line) chunk.
Proof.
  intros (cols & -> & _ & Hall & _). apply Forall_map.
  eapply Forall_impl; [|exact Hall]. simpl. intros c [? ?]. auto.
Qed.

Lemma row_placed line lineNum rules row :
  Forall2 (ruleChunk filePath ext line lineNum) rules row ->
  Forall (fun iss => Issue.line iss = lineNum
                     /\ 1 <= Issue.column iss /\ Issue.column iss <= length line)
         (concat row).
Proof.
  induction 1 as [|rule chunk rules row Hchunk Hrow IH]; simpl; [constructor|].
  apply Forall_app. split; [|assumption]. eapply ruleChunk_placed. eassumption.
Qed.

Lemma fileRows_placed rules i lines rows :
  fileRows filePath ext rules i lines rows ->
  Forall (fun iss =>
            i + 1 <= Issue.line iss /\ Issue.line iss <= i + length lines
            /\ exists l, nth_error lines (Issue.line iss - 1 - i) = Some l
                         /\ 1 <= Issue.column iss /\ Issue.column iss <= length l)
         (concat (map (@concat _) rows))
  /\ StronglySorted le (map Issue.line (concat (map (@concat _) rows))).
Proof.
  induction 1 as [i|i line lines row rows Hrow Hrows [IHp IHs]]; simpl.
  - split; constructor.
  - apply row_placed in Hrow. split.
    + apply Forall_app. split.
      * eapply Forall_impl; [|exact Hrow]. simpl. intros iss (Hl & Hc1 & Hc2).
        rewrite Hl. repeat split; try lia.
        exists line. replace (i + 1 - 1 - i) with 0 by lia. auto.
      * eapply Forall_impl; [|exact IHp]. simpl.
        intros iss (Hl1 & Hl2 & l & Hn & Hc). repeat split; try lia.
        exists l. replace (Issue.line iss - 1 - i) with (S (Issue.line iss - 1 - S i)) by lia.
        auto.
    + rewrite map_app. apply StronglySorted_app.
      * apply StronglySorted_constant with (n := i + 1). apply Forall_map.
        eapply Forall_impl; [|exact Hrow]. simpl. tauto.
      * assumption.
      * intros a b Ha Hb. apply in_map_iff in Ha, Hb.
        destruct Ha as (x & <- & Hx). destruct Hb as (y & <- & Hy).
        rewrite Forall_forall in Hrow, IHp.
        destruct (Hrow x Hx) as (-> & _). destruct (IHp y Hy) as (? & _). lia.
Qed.
End Positions.

(** C10: every issue of a finished scan points at a line of the text and at
    a character of that line (both from 1); the issues come in
    non-decreasing line order; and they are the concatenation, line by line
    and within a line rule by rule in the order of the rule list, of chunks
    whose columns strictly increase (a skipped rule's chunk is empty). *)
Theorem issue_positions fuel filePath (rules : list Rule.t) content issues :
  lintFileWith fuel filePath rules content = Some issues ->
  let lines := split LF content in
  Forall (wellPlaced lines) issues
  /\ StronglySorted le (map Issue.line issues)
  /\ exists rows,
       issues = concat (map (@concat _) rows)
       /\ fileRows filePath (getExtension filePath) rules 0 lines rows.
Proof.
  intros H lines. unfold lintFileWith in H. fold lines in H.
  apply forLines_spec in H. destruct H as (rows & -> & Hrows). simpl app.
  destruct (fileRows_placed _ _ _ _ _ _ Hrows) as [Hp Hs].
  split; [|split; [assumption|exists rows; split; [reflexivity|assumption]]].
  eapply Forall_impl; [|exact Hp]. simpl.
  intros iss (Hl1 & Hl2 & l & Hn & Hc). unfold wellPlaced.
  rewrite Nat.sub_0_r in Hn. repeat split; try lia. exists l. auto.
Qed.

(** An instance: two matches of one rule on one line. *)
Lemma issue_positions_witness :
  Forall (wellPlaced (split LF (str "var x = 1; var y = 2;")))
         [varIssue (str "a.js") 1 1; varIssue (str "a.js") 1 12].
Proof.
  apply (issue_positions 12 (str "a.js") LINT_RULES (str "var x = 1; var y = 2;")).
  vm_compute. reflexivity.
Defined.

(* ================================================================= *)
(** * C2: a failing entry *)

Section Traversal.
Variable fs : FileSystem.
Variable fuel depth : nat.
Variable options : Options.

Lemma lintPaths_app pre : forall post st,
  lintPaths fs fuel depth options (pre ++ post) st
  = bind (lintPaths fs fuel depth options pre st)
         (fun st' => lintPaths fs fuel depth options post st').
Proof.
  induction pre as [|p pre IH]; intros post st; simpl; [reflexivity|].
  destruct (lintPath fs fuel depth options p st); simpl; [apply IH|reflexivity|reflexivity].
Qed.

Lemma failsAt_Throw p st :
  failsAt fs depth options p -> lintPath fs fuel depth options p st = Throw.
Proof.
  unfold failsAt, lintPath.
  intros [Hstat|[[Hstat Hread]|(Hstat & Hrec & Hdir & Hdepth)]]; rewrite Hstat; simpl.
  - reflexivity.
  - unfold lintOne. rewrite Hread. reflexivity.
  - rewrite Hrec. destruct depth as [|d]; [lia|]. simpl. rewrite Hdir. reflexivity.
Qed.

Lemma lintPaths_files paths : forall st,
  (forall p, In p paths ->
     statSync fs p = Some isFile
     /\ exists content, readFileSync fs p = Some content /\ length content + 2 <= fuel) ->
  exists st', lintPaths fs fuel depth options paths st = Done st'
              /\ filesLinted st' = filesLinted st + length paths.
Proof.
  induction paths as [|p paths IH]; intros st Hall; simpl.
  - exists st. split; [reflexivity|lia].
  - destruct (Hall p (or_introl eq_refl)) as (Hstat & content & Hread & Hfuel).
    unfold lintPath, lintOne. rewrite Hstat. simpl. rewrite Hread. simpl.
    destruct (lintFileWith_terminates fuel p LINT_RULES content LINT_RULES_advancing Hfuel)
      as [issues Hissues].
    unfold lintFile. rewrite Hissues. simpl.
    destruct (IH {| allIssues := allIssues st ++ issues; filesLinted := filesLinted st + 1 |})
      as (st' & Hst' & Hcount).
    + intros q Hq. apply Hall. right. assumption.
    + exists st'. split; [assumption|]. rewrite Hcount. simpl. lia.
Qed.
End Traversal.

(** C2, as stated, fails: with a first path that does not exist and a
    second that is a readable file, the run does not go on to the second;
    the exception of [statSync] ends it.  Alone, the second path is scanned
    and counted. *)
Lemma failed_entry_aborts_run :
  statSync oneFile (str "gone.js") = None
  /\ (exists report,
        lintAction oneFile 2 1 noOptions [str "a.js"] = Done report
        /\ reportFiles report = 1)
  /\ lintAction oneFile 2 1 noOptions [str "gone.js"; str "a.js"] = Throw.
Proof.
  split; [reflexivity|split; [|reflexivity]].
  eexists. split; [vm_compute; reflexivity|reflexivity].
Qed.

(* ================================================================= *)
(** * C4: the exit code *)

Lemma groupBySeverity_errors issues : forall b,
  errors (groupBySeverity issues b) = errors b + errorCount issues.
Proof.
  unfold errorCount.
  induction issues as [|issue issues IH]; intros b; simpl; [lia|].
  rewrite IH. destruct (Issue.severity issue); simpl; lia.
Qed.

Lemma exitCode_errors issues :
  exitCode (groupBySeverity issues {| errors := 0; warnings := 0; infos := 0 |})
  = if 0 <? errorCount issues then 1 else 0.
Proof. unfold exitCode. rewrite groupBySeverity_errors. reflexivity. Qed.

Section Provenance.
Variable filePath : jsstring.
Variable ext : jsstring.

(** Every issue of a scan copies the severity of one of the rules. *)
Lemma fileRows_severity rules i lines rows :
  fileRows filePath ext rules i lines rows ->
  Forall (fun iss => exists rule, In rule rules
                                  /\ Issue.severity iss = Rule.severity rule)
         (concat (map (@concat _) rows)).
Proof.
  induction 1 as [i|i line lines row rows Hrow Hrows IH]; simpl; [constructor|].
  apply Forall_app. split; [|assumption]. clear IH Hrows.
  induction Hrow as [|rule chunk rules row (cols & -> & _) Hrow IH]; simpl; [constructor|].
  apply Forall_app. split.
  - apply Forall_map. apply Forall_forall. intros c _.
    exists rule. split; [left; reflexivity|reflexivity].
  - eapply Forall_impl; [|exact IH]. simpl.
    intros iss (r & Hin & Hsev). exists r. split; [right; assumption|assumption].
Qed.
End Provenance.

Lemma lintFile_no_error fuel filePath content issues :
  lintFile fuel filePath content = Some issues -> errorCount issues = 0.
Proof.
  unfold lintFile, lintFileWith. intros H.
  apply forLines_spec in H. destruct H as (rows & -> & Hrows). simpl app.
  apply fileRows_severity in Hrows. unfold errorCount.
  induction Hrows as [|iss issues (rule & Hin & Hsev) Hall IH]; simpl; [reflexivity|].
  rewrite Hsev.
  assert (Hne : Rule.severity rule <> error).
  { simpl in Hin.
    repeat (destruct Hin as [<-|Hin]; [discriminate|]). contradiction. }
  destruct (Rule.severity rule); [congruence|assumption|assumption].
Qed.

(* ================================================================= *)
(** * Further properties: the lines of a text *)

Lemma join_split sep s : joinWith sep (split sep s) = s.
Proof.
  induction s as [|c s IH]; simpl; [reflexivity|].
  pose proof (split_nonempty sep s) as Hne.
  destruct (N.eqb_spec c sep) as [->|Hc]; unfold char16_eqb.
  - rewrite N.eqb_refl. destruct (split sep s) as [|piece rest]; [congruence|].
    cbn [joinWith app]. cbn [joinWith] in IH. rewrite IH. reflexivity.
  - apply N.eqb_neq in Hc. rewrite Hc.
    destruct (split sep s) as [|piece [|piece' rest]]; [congruence| |].
    + simpl in *. congruence.
    + cbn [joinWith] in *. rewrite <- IH. reflexivity.
Qed.

Lemma split_pieces_clean sep s : Forall (fun piece => ~ In sep piece) (split sep s).
Proof.
  induction s as [|c s IH]; simpl.
  - constructor; [intros []|constructor].
  - destruct (N.eqb_spec c sep) as [->|Hc]; unfold char16_eqb.
    + rewrite N.eqb_refl. constructor; [intros []|assumption].
    + apply N.eqb_neq in Hc. rewrite Hc. apply N.eqb_neq in Hc.
      destruct (split sep s) as [|piece rest]; [constructor; [|constructor]|].
      * intros [H|[]]. congruence.
      * inversion IH; subst. constructor; [|assumption].
        intros [H|H]; [congruence|contradiction].
Qed.

Lemma split_count sep s :
  length (split sep s) = 1 + count_occ N.eq_dec s sep.
Proof.
  induction s as [|c s IH]; simpl; [reflexivity|].
  pose proof (split_nonempty sep s) as Hne.
  destruct (N.eq_dec c sep) as [->|Hc]; unfold char16_eqb.
  - rewrite N.eqb_refl. simpl. rewrite IH. reflexivity.
  - apply N.eqb_neq in Hc. rewrite Hc.
    destruct (split sep s) as [|piece rest]; [congruence|].
    simpl in *. assumption.
Qed.

(** X1: The lines [lintFile] and [calculateComplexity] work on are the text cut
    at its newlines and nothing else: joined by newlines they give the text
    back, no line holds a newline, and there is one line more than there are
    newlines (so a text that ends in a newline has a last, empty line). *)
Theorem lines_are_the_text (content : jsstring) :
  joinWith LF (split LF content) = content
  /\ Forall (fun line => ~ In LF line) (split LF content)
  /\ length (split LF content) = 1 + count_occ N.eq_dec content LF.
Proof.
  split; [apply join_split|split; [apply split_pieces_clean|apply split_count]].
Qed.

(* ================================================================= *)
(** * Further properties: where issues come from *)

Section Origin.
Variable filePath : jsstring.
Variable ext : jsstring.

Lemma ruleChunk_origin line lineNum rule chunk :
  ruleChunk filePath ext line lineNum rule chunk ->
  Forall (fun iss => Issue.file iss = filePath
                     /\ skipped rule ext = false
                     /\ Issue.issue iss = Rule.issue rule
                     /\ Issue.severity iss = Rule.severity rule) chunk
  /\ length chunk <= (if skipped rule ext then 0 else length line).
Proof.
  intros (cols & -> & Hsorted & Hall & Hskip). split.
  - apply Forall_map. apply Forall_forall. intros c Hc. simpl.
    repeat split. destruct (skipped rule ext); [|reflexivity].
    rewrite (Hskip eq_refl) in Hc. destruct Hc.
  - rewrite length_map. destruct (skipped rule ext).
    + rewrite (Hskip eq_refl). simpl. lia.
    + clear Hskip.
      assert (Hgen : forall lo, Forall (fun c => lo < c /\ c <= length line) cols ->
                                length cols <= length line - lo).
      { induction Hsorted as [|c cols Hs IH Hc]; intros lo Hlo; simpl; [lia|].
        inversion Hlo as [|? ? [Hc1 Hc2] Hrest]; subst.
        assert (Hle : length cols <= length line - c).
        { apply IH.
          - inversion Hall; assumption.
          - rewrite Forall_forall in Hc, Hrest. apply Forall_forall.
            intros x Hx. split; [apply Hc; assumption|apply Hrest; assumption]. }
        lia. }
      specialize (Hgen 0). rewrite Nat.sub_0_r in Hgen. apply Hgen.
      eapply Forall_impl; [|exact Hall]. simpl. intros c [? ?]. lia.
Qed.

Lemma row_origin line lineNum rules row :
  Forall2 (ruleChunk filePath ext line lineNum) rules row ->
  Forall (fun iss => Issue.file iss = filePath
                     /\ exists rule, In rule rules /\ skipped rule ext = false
                                     /\ Issue.issue iss = Rule.issue rule
                                     /\ Issue.severity iss = Rule.severity rule)
         (concat row)
  /\ length (concat row) <= length (applicableRules rules ext) * length line.
Proof.
  induction 1 as [|rule chunk rules row Hchunk Hrow [IH1 IH2]]; simpl.
  - split; [constructor|lia].
  - apply ruleChunk_origin in Hchunk. destruct Hchunk as [Hc1 Hc2]. split.
    + apply Forall_app. split.
      * eapply Forall_impl; [|exact Hc1]. simpl. intros iss (? & ? & ? & ?).
        split; [assumption|]. exists rule. auto.
      * eapply Forall_impl; [|exact IH1]. simpl. intros iss (? & r & ? & ?).
        split; [assumption|]. exists r. auto.
    + rewrite length_app. destruct (skipped rule ext); simpl; lia.
Qed.

Lemma fileRows_origin rules i lines rows :
  fileRows filePath ext rules i lines rows ->
  Forall (fun iss => Issue.file iss = filePath
                     /\ exists rule, In rule rules /\ skipped rule ext = false
                                     /\ Issue.issue iss = Rule.issue rule
                                     /\ Issue.severity iss = Rule.severity rule)
         (concat (map (@concat _) rows))
  /\ length (concat (map (@concat _) rows))
     <= length (applicableRules rules ext) * list_sum (map (@length _) lines).
Proof.
  induction 1 as [i|i line lines row rows Hrow Hrows [IH1 IH2]]; simpl.
  - split; [constructor|lia].
  - apply row_origin in Hrow. destruct Hrow as [Hr1 Hr2]. split.
    + apply Forall_app. split; assumption.
    + rewrite length_app. nia.
Qed.
End Origin.

Lemma split_total_length sep s :
  list_sum (map (@length _) (split sep s)) + length (split sep s) = S (length s).
Proof.
  induction s as [|c s IH]; simpl; [reflexivity|].
  pose proof (split_nonempty sep s) as Hne.
  destruct (char16_eqb c sep); simpl.
  - lia.
  - destruct (split sep s) as [|piece rest]; [congruence|]. simpl in *. lia.
Qed.

(** The issues of a scan name the path the scan was given. *)
Lemma lintFile_file fuel filePath content issues :
  lintFile fuel filePath content = Some issues ->
  Forall (fun iss => Issue.file iss = filePath) issues.
Proof.
  unfold lintFile, lintFileWith. intros H.
  apply forLines_spec in H. destruct H as (rows & -> & Hrows). simpl app.
  apply fileRows_origin in Hrows. destruct Hrows as [Hall _].
  eapply Forall_impl; [|exact Hall]. simpl. tauto.
Qed.

(** X2: Every issue of a scan carries the path the scan was given and the
    message and the severity of one and the same rule of the list, a rule
    that applies to the unit's language identifier. *)
Theorem issues_come_from_rules fuel filePath (rules : list Rule.t) content issues :
  lintFileWith fuel filePath rules content = Some issues ->
  Forall (fun iss =>
            Issue.file iss = filePath
            /\ exists rule,
                 In rule rules
                 /\ skipped rule (getExtension filePath) = false
                 /\ Issue.issue iss = Rule.issue rule
                 /\ Issue.severity iss = Rule.severity rule) issues.
Proof.
  unfold lintFileWith. intros H.
  apply forLines_spec in H. destruct H as (rows & -> & Hrows). simpl app.
  apply fileRows_origin in Hrows. tauto.
Qed.

(** An instance: the scan of one line of JavaScript. *)
Lemma issues_come_from_rules_witness :
  Forall (fun iss =>
            Issue.file iss = str "a.js"
            /\ exists rule,
                 In rule LINT_RULES
                 /\ skipped rule (getExtension (str "a.js")) = false
                 /\ Issue.issue iss = Rule.issue rule
                 /\ Issue.severity iss = Rule.severity rule)
         [varIssue (str "a.js") 1 1].
Proof.
  apply (issues_come_from_rules 2 (str "a.js") LINT_RULES (str "var x = 1;")).
  vm_compute. reflexivity.
Defined.

(** X3: A finished scan reports at most one issue per applicable rule and
    character of the text (newlines not counted). *)
Theorem issue_count_bound fuel filePath (rules : list Rule.t) content issues :
  lintFileWith fuel filePath rules content = Some issues ->
  length issues
  <= length (applicableRules rules (getExtension filePath))
     * (length content - count_occ N.eq_dec content LF).
Proof.
  unfold lintFileWith. intros H.
  apply forLines_spec in H. destruct H as (rows & -> & Hrows). simpl app.
  apply fileRows_origin in Hrows. destruct Hrows as [_ Hlen].
  pose proof (split_total_length LF content) as Htot.
  pose proof (split_count LF content) as Hcnt.
  replace (length content - count_occ N.eq_dec content LF)
    with (list_sum (map (@length _) (split LF content))) by lia.
  assumption.
Qed.

(** An instance: a text file that holds a tab; the tab is reported as
    trailing white space and as a tab. *)
Lemma issue_count_bound_witness :
  length [issueAt (str "a.txt") 1 (mkRule None Patterns.trailing_ws flags_gm
                                     (str "Trailing whitespace") info) 1;
          issueAt (str "a.txt") 1 (mkRule None Patterns.tab flags_g
                                     (str "Use spaces instead of tabs") warning) 1]
  <= length (applicableRules LINT_RULES (getExtension (str "a.txt")))
     * (length [9%N; 10%N] - count_occ N.eq_dec [9%N; 10%N] LF).
Proof.
  apply (issue_count_bound 3 (str "a.txt") LINT_RULES [9%N; 10%N]).
  vm_compute. reflexivity.
Defined.

(* ================================================================= *)
(** * Further properties: the [lint] action *)

Section LintInvariant.
Variable fs : FileSystem.
Variable fuel : nat.
Variable P : LintState -> Prop.
Hypothesis Pstep : forall p content issues st,
  readFileSync fs p = Some content ->
  lintFile fuel p content = Some issues ->
  P st ->
  P {| allIssues := allIssues st ++ issues; filesLinted := filesLinted st + 1 |}.

Lemma lintOne_invariant p st st' :
  lintOne fs fuel p st = Done st' -> P st -> P st'.
Proof.
  unfold lintOne. intros H HP.
  destruct (readFileSync fs p) as [content|] eqn:Hread; simpl in H; [|discriminate].
  destruct (lintFile fuel p content) as [issues|] eqn:Hlint; simpl in H; [|discriminate].
  inversion H; subst. eapply Pstep; eassumption.
Qed.

Lemma lintDir_invariant depth : forall dir st st',
  lintDir fs fuel depth dir st = Done st' -> P st -> P st'.
Proof.
  induction depth as [|depth IH]; intros dir st st' H HP; simpl in H; [discriminate|].
  destruct (readdirSync fs dir) as [items|]; simpl in H; [|discriminate].
  revert st H HP. induction items as [|item rest IHitems]; intros st H HP.
  - inversion H; subst. assumption.
  - destruct (statSync fs (join fs dir item)) as [[| |]|]; simpl in H; try discriminate.
    + destruct (lintOne fs fuel (join fs dir item) st) as [st1| |] eqn:Hone;
        simpl in H; try discriminate.
      apply (IHitems st1); [assumption|]. eapply lintOne_invariant; eassumption.
    + destruct (lintDir fs fuel depth (join fs dir item) st) as [st1| |] eqn:Hdir;
        simpl in H; try discriminate.
      apply (IHitems st1); [assumption|]. eapply IH; eassumption.
    + apply (IHitems st); assumption.
Qed.

Lemma lintPaths_invariant depth options paths : forall st st',
  lintPaths fs fuel depth options paths st = Done st' -> P st -> P st'.
Proof.
  induction paths as [|p paths IH]; intros st st' H HP; simpl in H.
  - inversion H; subst. assumption.
  - destruct (lintPath fs fuel depth options p st) as [st1| |] eqn:Hp;
      simpl in H; try discriminate.
    apply (IH st1); [assumption|]. unfold lintPath in Hp.
    destruct (statSync fs p) as [[| |]|]; simpl in Hp; try discriminate.
    + eapply lintOne_invariant; eassumption.
    + destruct (recursive options).
      * eapply lintDir_invariant; eassumption.
      * inversion Hp; subst. assumption.
    + inversion Hp; subst. assumption.
Qed.
End LintInvariant.

Lemma lintAction_Done fs fuel depth options paths report :
  lintAction fs fuel depth options paths = Done report ->
  exists st,
    lintPaths fs fuel depth options paths noIssuesYet = Done st
    /\ reportIssues report = allIssues st
    /\ reportFiles report = filesLinted st
    /\ reportCounts report
       = groupBySeverity (allIssues st) {| errors := 0; warnings := 0; infos := 0 |}
    /\ reportExit report = exitCode (reportCounts report)
    /\ reportSaved report = output options.
Proof.
  unfold lintAction. fold noIssuesYet. intros H.
  destruct (lintPaths fs fuel depth options paths noIssuesYet) as [st| |];
    simpl in H; try discriminate.
  exists st. split; [reflexivity|].
  destruct (output options) as [out|]; simpl in H.
  - destruct (writeFileSync fs out (allIssues st)); simpl in H; [|discriminate].
    inversion H; subst; simpl. repeat split.
  - inversion H; subst; simpl. repeat split.
Qed.

Lemma errorCount_app a b : errorCount (a ++ b) = errorCount a + errorCount b.
Proof. unfold errorCount. rewrite filter_app, length_app. reflexivity. Qed.

Lemma groupBySeverity_total issues : forall b,
  totalCount (groupBySeverity issues b) = totalCount b + length issues.
Proof.
  unfold totalCount.
  induction issues as [|issue issues IH]; intros b; simpl; [lia|].
  rewrite IH. destruct (Issue.severity issue); simpl; lia.
Qed.

(** X4: A finished [lint] run always ends with exit code 0: the count of errors
    is 0, since no built-in rule has that severity, so [process.exit(1)] is
    never reached; and the warnings and infos of the summary add up to the
    number of issues found. *)
Theorem lint_run_exits_zero fs fuel depth options paths report :
  lintAction fs fuel depth options paths = Done report ->
  reportExit report = 0
  /\ errors (reportCounts report) = 0
  /\ warnings (reportCounts report) + infos (reportCounts report)
     = length (reportIssues report).
Proof.
  intros H. apply lintAction_Done in H.
  destruct H as (st & Hst & Hissues & _ & Hcounts & Hexit & _).
  assert (Herr : errorCount (allIssues st) = 0).
  { apply (lintPaths_invariant fs fuel (fun s => errorCount (allIssues s) = 0))
      with (depth := depth) (options := options) (paths := paths) (st := noIssuesYet);
      [|assumption|reflexivity].
    intros p content issues s _ Hlint Hs. simpl.
    rewrite errorCount_app, Hs. simpl. eapply lintFile_no_error. eassumption. }
  assert (Hzero : errors (reportCounts report) = 0).
  { rewrite Hcounts, groupBySeverity_errors. simpl. assumption. }
  split; [|split; [assumption|]].
  - rewrite Hexit. unfold exitCode. rewrite Hzero. reflexivity.
  - pose proof (groupBySeverity_total (allIssues st)
                  {| errors := 0; warnings := 0; infos := 0 |}) as Htot.
    rewrite <- Hcounts in Htot. unfold totalCount in Htot. simpl in Htot.
    rewrite Hissues. lia.
Qed.

(** An instance: the run over the one readable file. *)
Lemma lint_run_exits_zero_witness :
  exists report,
    lintAction oneFile 2 1 noOptions [str "a.js"] = Done report
    /\ reportExit report = 0.
Proof.
  eexists. split; [vm_compute; reflexivity|].
  apply (lint_run_exits_zero oneFile 2 1 noOptions [str "a.js"]).
  vm_compute. reflexivity.
Defined.

(** X5: Every issue of a finished [lint] run belongs to the scan of a file the
    run could read: its [file] is a path [readFileSync] answered for, and it
    is one of the issues [lintFile] gives for that path and content. *)
Theorem report_issues_are_scanned fs fuel depth options paths report :
  lintAction fs fuel depth options paths = Done report ->
  Forall (fun iss =>
            exists content issues,
              readFileSync fs (Issue.file iss) = Some content
              /\ lintFile fuel (Issue.file iss) content = Some issues
              /\ In iss issues)
         (reportIssues report).
Proof.
  intros H. apply lintAction_Done in H.
  destruct H as (st & Hst & -> & _).
  apply (lintPaths_invariant fs fuel
           (fun s => Forall (fun iss =>
                               exists content issues,
                                 readFileSync fs (Issue.file iss) = Some content
                                 /\ lintFile fuel (Issue.file iss) content = Some issues
                                 /\ In iss issues) (allIssues s)))
    with (depth := depth) (options := options) (paths := paths) (st := noIssuesYet);
    [|assumption|constructor].
  intros p content issues s Hread Hlint Hs. simpl.
  apply Forall_app. split; [assumption|].
  pose proof (lintFile_file fuel p content issues Hlint) as Hfile.
  apply Forall_forall. intros iss Hin.
  rewrite Forall_forall in Hfile. rewrite (Hfile iss Hin).
  exists content, issues. auto.
Qed.

(** An instance: the run over the one readable file. *)
Lemma report_issues_are_scanned_witness :
  Forall (fun iss =>
            exists content issues,
              readFileSync oneFile (Issue.file iss) = Some content
              /\ lintFile 2 (Issue.file iss) content = Some issues
              /\ In iss issues)
         [varIssue (str "a.js") 1 1].
Proof.
  apply (report_issues_are_scanned oneFile 2 1 noOptions [str "a.js"]
           {| reportIssues := [varIssue (str "a.js") 1 1];
              reportFiles := 1;
              reportCounts := {| errors := 0; warnings := 1; infos := 0 |};
              reportSaved := None;
              reportExit := 0 |}).
  vm_compute. reflexivity.
Defined.

Lemma lintPaths_regularFiles fs fuel depth options paths : forall st,
  recursive options = false ->
  (forall p, In p paths -> statSync fs p <> None) ->
  lintPaths fs fuel depth options paths st
  = lintPaths fs fuel depth options (regularFiles fs paths) st.
Proof.
  induction paths as [|p paths IH]; intros st Hrec Hstat; simpl; [reflexivity|].
  assert (Hrest : forall q, In q paths -> statSync fs q <> None)
    by (intros q Hq; apply Hstat; right; assumption).
  pose proof (Hstat p (or_introl eq_refl)) as Hp.
  unfold regularFiles. cbn [filter]. fold (regularFiles fs paths).
  unfold lintPath at 1.
  destruct (statSync fs p) as [[| |]|] eqn:Hs; simpl; try congruence.
  - unfold lintPath. rewrite Hs. simpl.
    destruct (lintOne fs fuel p st); simpl; [apply IH; assumption|reflexivity|reflexivity].
  - rewrite Hrec. simpl. apply IH; assumption.
  - apply IH; assumption.
Qed.

(** X6: Without the recursive option, a run over paths that all exist is the run
    over the regular files among them: directories and entries that are
    neither file nor directory are passed over in silence.  When no path is
    a regular file the run finishes with nothing linted, no issue and exit
    code 0. *)
Theorem unwalked_paths_are_skipped fs fuel depth options paths :
  recursive options = false ->
  (forall p, In p paths -> statSync fs p <> None) ->
  lintAction fs fuel depth options paths
  = lintAction fs fuel depth options (regularFiles fs paths)
  /\ (regularFiles fs paths = [] -> output options = None ->
      lintAction fs fuel depth options paths = Done emptyReport).
Proof.
  intros Hrec Hstat.
  assert (Heq : lintAction fs fuel depth options paths
                = lintAction fs fuel depth options (regularFiles fs paths)).
  { unfold lintAction. rewrite lintPaths_regularFiles by assumption. reflexivity. }
  split; [assumption|].
  intros Hnone Hout. rewrite Heq, Hnone. unfold lintAction. simpl.
  rewrite Hout. reflexivity.
Qed.

(** An instance: a directory and a socket, no recursive option. *)
Lemma unwalked_paths_are_skipped_witness :
  lintAction smallTree 2 3 noOptions [str "src"; str "sock"] = Done emptyReport.
Proof.
  assert (Hstat : forall p, In p [str "src"; str "sock"] -> statSync smallTree p <> None).
  { intros p [<-|[<-|[]]]; discriminate. }
  apply (proj2 (unwalked_paths_are_skipped smallTree 2 3 noOptions
                  [str "src"; str "sock"] eq_refl Hstat)); reflexivity.
Defined.

Section FileLists.
Variable fs : FileSystem.
Variable fuel depth : nat.
Variable options : Options.

Lemma lintPaths_concat paths : forall st,
  (forall p, In p paths -> readableFile fs fuel p) ->
  exists perFile st',
    lintPaths fs fuel depth options paths st = Done st'
    /\ Forall2 (fun p issues =>
                  exists content, readFileSync fs p = Some content
                                  /\ lintFile fuel p content = Some issues)
               paths perFile
    /\ allIssues st' = allIssues st ++ concat perFile
    /\ filesLinted st' = filesLinted st + length paths.
Proof.
  induction paths as [|p paths IH]; intros st Hall; simpl.
  - exists [], st. repeat split; [constructor|symmetry; apply app_nil_r|lia].
  - destruct (Hall p (or_introl eq_refl)) as (Hstat & content & Hread & Hfuel).
    unfold lintPath, lintOne. rewrite Hstat. simpl. rewrite Hread. simpl.
    destruct (lintFileWith_terminates fuel p LINT_RULES content LINT_RULES_advancing Hfuel)
      as [issues Hissues].
    unfold lintFile. rewrite Hissues. simpl.
    destruct (IH {| allIssues := allIssues st ++ issues; filesLinted := filesLinted st + 1 |})
      as (perFile & st' & Hst' & Hper & Hiss & Hcount).
    + intros q Hq. apply Hall. right. assumption.
    + exists (issues :: perFile), st'. split; [assumption|]. split; [|split].
      * constructor; [|assumption]. exists content. split; assumption.
      * rewrite Hiss. simpl. rewrite app_assoc. reflexivity.
      * rewrite Hcount. simpl. lia.
Qed.
End FileLists.

(** X7: Over a list of readable regular files the run is the scans put end to
    end: the issues of the report are the issues of the first file, then
    those of the second, and so on in the order of the paths, and every
    path counts as one file linted. *)
Theorem report_concatenates_scans fs fuel depth options paths :
  output options = None ->
  (forall p, In p paths -> readableFile fs fuel p) ->
  exists perFile report,
    lintAction fs fuel depth options paths = Done report
    /\ Forall2 (fun p issues =>
                  exists content, readFileSync fs p = Some content
                                  /\ lintFile fuel p content = Some issues)
               paths perFile
    /\ reportIssues report = concat perFile
    /\ reportFiles report = length paths.
Proof.
  intros Hout Hall. unfold lintAction. fold noIssuesYet.
  destruct (lintPaths_concat fs fuel depth options paths noIssuesYet Hall)
    as (perFile & st' & -> & Hper & Hiss & Hcount).
  simpl. rewrite Hout. simpl. eexists perFile, _. split; [reflexivity|].
  simpl. repeat split; assumption.
Qed.

(** An instance: the same readable file given twice is scanned twice. *)
Lemma report_concatenates_scans_witness :
  exists perFile report,
    lintAction oneFile 12 1 noOptions [str "a.js"; str "a.js"] = Done report
    /\ Forall2 (fun p issues =>
                  exists content, readFileSync oneFile p = Some content
                                  /\ lintFile 12 p content = Some issues)
               [str "a.js"; str "a.js"] perFile
    /\ reportIssues report = concat perFile
    /\ reportFiles report = length [str "a.js"; str "a.js"].
Proof.
  apply (report_concatenates_scans oneFile 12 1 noOptions [str "a.js"; str "a.js"]).
  - reflexivity.
  - intros p [<-|[<-|[]]]; (split; [reflexivity|]);
      exists (str "var x = 1;"); (split; [reflexivity|simpl; lia]).
Defined.

Lemma bind_Done (A : Type) (r : result A) : bind r (fun a => Done a) = r.
Proof. destruct r; reflexivity. Qed.

Lemma lintDir_flat fs fuel depth depth' options dir items : forall st,
  readdirSync fs dir = Some items ->
  (forall item, In item items -> statSync fs (join fs dir item) <> Some isDirectory) ->
  lintDir fs fuel (S depth) dir st
  = lintPaths fs fuel depth' options (map (join fs dir) items) st.
Proof.
  intros st Hdir. simpl. rewrite Hdir. simpl. clear Hdir. revert st.
  induction items as [|item rest IH]; intros st Hflat; [reflexivity|].
  assert (Hrest : forall i, In i rest -> statSync fs (join fs dir i) <> Some isDirectory)
    by (intros i Hi; apply Hflat; right; assumption).
  pose proof (Hflat item (or_introl eq_refl)) as Hitem.
  cbn [map lintPaths]. unfold lintPath.
  destruct (statSync fs (join fs dir item)) as [[| |]|]; simpl; try congruence.
  - destruct (lintOne fs fuel (join fs dir item) st); simpl;
      [apply IH; assumption|reflexivity|reflexivity].
  - apply IH; assumption.
Qed.

(** X8: With the recursive option, walking a directory that has no
    sub-directory gives the very run of its entries passed as paths, each
    joined to the directory: the same files linted, the same issues in the
    same order, the same failure if an entry fails. *)
Theorem flat_directory_is_its_entries fs fuel depth depth' options dir items :
  recursive options = true ->
  statSync fs dir = Some isDirectory ->
  readdirSync fs dir = Some items ->
  (forall item, In item items -> statSync fs (join fs dir item) <> Some isDirectory) ->
  lintAction fs fuel (S depth) options [dir]
  = lintAction fs fuel depth' options (map (join fs dir) items).
Proof.
  intros Hrec Hstat Hdir Hflat. unfold lintAction.
  replace (lintPaths fs fuel (S depth) options [dir] {| allIssues := []; filesLinted := 0 |})
    with (lintPaths fs fuel depth' options (map (join fs dir) items)
                    {| allIssues := []; filesLinted := 0 |}); [reflexivity|].
  cbn [lintPaths]. rewrite bind_Done. unfold lintPath. rewrite Hstat. simpl.
  rewrite Hrec. symmetry. apply lintDir_flat; assumption.
Qed.

(** An instance: the directory [src] with its one file. *)
Lemma flat_directory_is_its_entries_witness :
  lintAction smallTree 2 1 recursiveOptions [str "src"]
  = lintAction smallTree 2 0 recursiveOptions (map (join smallTree (str "src")) [str "a.js"]).
Proof.
  apply (flat_directory_is_its_entries smallTree 2 0 0 recursiveOptions (str "src") [str "a.js"]);
    try reflexivity.
  intros item [<-|[]]. discriminate.
Defined.

(* ================================================================= *)
(** * Further properties: the [pr] action *)

Lemma prFiles_spec fuel files : forall total out total' out',
  prFiles fuel files total out = Some (total', out') ->
  exists perFile,
    Forall2 (fun file issues =>
               lintFile fuel (filename file) (patchText file) = Some issues)
            (withPatch files) perFile
    /\ total' = total + length (concat perFile)
    /\ out' = out ++ concat (map (fun fi => printedFor (fst fi) (snd fi))
                                 (combine (withPatch files) perFile)).
Proof.
  induction files as [|file files IH]; intros total out total' out' H; simpl in H.
  - inversion H; subst. exists []. simpl. rewrite app_nil_r.
    repeat split; [constructor|lia].
  - unfold withPatch. cbn [filter]. fold (withPatch files).
    destruct (noPatch file) eqn:Hno; simpl.
    + apply IH. assumption.
    + fold (patchText file) in H.
      destruct (lintFile fuel (filename file) (patchText file)) as [issues|] eqn:Hlint;
        [|discriminate].
      destruct issues as [|iss issues]; simpl in H.
      * apply IH in H. destruct H as (perFile & Hper & -> & ->).
        exists ([] :: perFile). simpl.
        split; [constructor; assumption|]. split; reflexivity.
      * apply IH in H. destruct H as (perFile & Hper & -> & ->).
        exists ((iss :: issues) :: perFile). simpl.
        split; [constructor; assumption|]. split.
        -- rewrite length_app. simpl. lia.
        -- rewrite <- app_assoc. reflexivity.
Qed.

(** X9: The [pr] action scans the entries that have a non-empty patch, each
    under its file name, and only those.  Its total counts every issue of
    every scan; a file with issues is printed with its first three issues at
    most, a file without issues is not printed; it ends with exit code 0. *)
Theorem pr_report_contents fuel files report :
  prAction fuel files = Some report ->
  exists perFile,
    Forall2 (fun file issues =>
               lintFile fuel (filename file) (patchText file) = Some issues)
            (withPatch files) perFile
    /\ totalIssues report = length (concat perFile)
    /\ printed report
       = concat (map (fun fi => printedFor (fst fi) (snd fi))
                     (combine (withPatch files) perFile))
    /\ Forall (fun entry => 1 <= length (snd entry) /\ length (snd entry) <= 3)
              (printed report)
    /\ prExit report = 0.
Proof.
  unfold prAction. intros H.
  destruct (prFiles fuel files 0 []) as [[total out]|] eqn:Hp; [|discriminate].
  inversion H; subst; clear H. simpl.
  apply prFiles_spec in Hp. destruct Hp as (perFile & Hper & -> & ->).
  exists perFile. simpl. repeat split; try assumption.
  apply Forall_concat. apply Forall_map. apply Forall_forall.
  intros [file issues] _. simpl. unfold printedFor.
  destruct issues as [|iss issues]; [constructor|].
  constructor; [|constructor]. cbn [snd]. rewrite length_map, length_firstn.
  cbn [length]. lia.
Qed.

(** An instance: of three entries only the one with a patch is scanned. *)
Lemma pr_report_contents_witness :
  exists perFile,
    Forall2 (fun file issues =>
               lintFile 12 (filename file) (patchText file) = Some issues)
            (withPatch smallPr) perFile
    /\ 1 = length (concat perFile).
Proof.
  destruct (pr_report_contents 12 smallPr
              {| totalIssues := 1;
                 printed := [(str "a.js", [(warning, Issue.issue (varIssue [] 0 0))])];
                 prExit := 0 |})
    as (perFile & Hper & Htotal & _).
  - vm_compute. reflexivity.
  - exists perFile. split; assumption.
Defined.

(* ================================================================= *)
(** * Further properties: the complexity score *)

(** X11: The score of two texts joined by a newline is the sum of their scores
    less the one baseline counted twice; a score is at least 1 and at most
    one more than the number of lines. *)
Theorem complexity_of_joined_texts (a b : jsstring) :
  calculateComplexity (a ++ LF :: b) + 1 = calculateComplexity a + calculateComplexity b
  /\ 1 <= calculateComplexity a
  /\ calculateComplexity a <= 1 + length (split LF a).
Proof.
  unfold calculateComplexity. rewrite !complexityLoop_spec, split_app, filter_app, length_app.
  repeat split; try lia.
  pose proof (filter_length_le SpecScore.containsKeyword (split LF a)). lia.
Qed.

(* ================================================================= *)
(** * Further properties: the path of a scan *)

Section Relabel.
Variable p1 p2 : jsstring.

Lemma whileExec_relabel line lineNum rule n : forall R issues,
  whileExec p2 n R line lineNum rule (map (relabel p2) issues)
  = option_map (map (relabel p2)) (whileExec p1 n R line lineNum rule issues).
Proof.
  induction n as [|n IH]; intros R issues; [reflexivity|].
  simpl. destruct (exec R line) as [R' [m|]]; [|reflexivity].
  rewrite <- IH, map_app. reflexivity.
Qed.

Lemma forRules_relabel fuel ext line lineNum rules : forall issues,
  forRules fuel p2 rules ext line lineNum (map (relabel p2) issues)
  = option_map (map (relabel p2)) (forRules fuel p1 rules ext line lineNum issues).
Proof.
  induction rules as [|rule rules IH]; intros issues; [reflexivity|].
  simpl. unfold lintRule. destruct (skipped rule ext).
  - apply IH.
  - rewrite whileExec_relabel.
    destruct (whileExec p1 fuel _ line lineNum rule issues); simpl; [apply IH|reflexivity].
Qed.

Lemma forLines_relabel fuel ext rules lines : forall i issues,
  forLines fuel p2 rules ext lines i (map (relabel p2) issues)
  = option_map (map (relabel p2)) (forLines fuel p1 rules ext lines i issues).
Proof.
  induction lines as [|line lines IH]; intros i issues; [reflexivity|].
  simpl. rewrite forRules_relabel.
  destruct (forRules fuel p1 rules ext line (i + 1) issues); simpl; [apply IH|reflexivity].
Qed.
End Relabel.

(** X12: The path of a unit matters to a scan in two ways only: through
    [getExtension], which selects the rules, and as the [file] written into
    each issue.  Two paths with the same extension, letter case aside, give
    the same issues under different names. *)
Theorem path_matters_through_extension fuel p1 p2 (rules : list Rule.t) content :
  getExtension p1 = getExtension p2 ->
  lintFileWith fuel p2 rules content
  = option_map (map (relabel p2)) (lintFileWith fuel p1 rules content).
Proof.
  intros Hext. unfold lintFileWith. rewrite Hext.
  apply (forLines_relabel p1 p2 fuel (getExtension p2) rules (split LF content) 0 []).
Qed.

(** An instance: [App.JS] and [lib/util.js]. *)
Lemma path_matters_through_extension_witness :
  lintFileWith 12 (str "lib/util.js") LINT_RULES (str "var x = 1;")
  = option_map (map (relabel (str "lib/util.js")))
               (lintFileWith 12 (str "App.JS") LINT_RULES (str "var x = 1;")).
Proof.
  apply (path_matters_through_extension 12 (str "App.JS") (str "lib/util.js")).
  reflexivity.
Defined.

(* ================================================================= *)
(** * Further properties: what some rules report *)

Section SearchFacts.
Variable input : jsstring.
Variable multiline : bool.
Variable r : Regex.t.

Lemma search_skip k : forall i n,
  (forall j, i <= j -> j < i + k -> Regex.matchAt input multiline r j = None) ->
  Regex.search input multiline r i (k + n) = Regex.search input multiline r (i + k) n.
Proof.
  induction k as [|k IH]; intros i n Hnone.
  - rewrite Nat.add_0_r. reflexivity.
  - simpl. rewrite (Hnone i) by lia. rewrite IH.
    + f_equal. lia.
    + intros j Hj1 Hj2. apply Hnone; lia.
Qed.

Lemma search_nothing n : forall i,
  (forall j, i <= j -> j < i + n -> Regex.matchAt input multiline r j = None) ->
  Regex.search input multiline r i n = None.
Proof.
  induction n as [|n IH]; intros i Hnone; [reflexivity|].
  simpl. rewrite (Hnone i) by lia. apply IH. intros j Hj1 Hj2. apply Hnone; lia.
Qed.
End SearchFacts.

(** The first call of [exec] on a fresh global object, when the leftmost
    match starts at [i] and ends at [e]. *)
Lemma exec_first src fl line i e :
  global fl = true ->
  i <= length line ->
  (forall j, j < i -> Regex.matchAt line (multiline fl) src j = None) ->
  Regex.matchAt line (multiline fl) src i = Some e ->
  exec (newRegExp src fl) line
  = ({| source := src; flags := fl; lastIndex := e |},
     Some {| index := i; matched := substring line i e |}).
Proof.
  intros Hg Hi Hnone Hm. unfold exec. simpl. rewrite Hg. rewrite Nat.sub_0_r.
  replace (length line + 1) with (i + S (length line - i)) by lia.
  rewrite search_skip by (intros j _ Hj; apply Hnone; lia).
  simpl. rewrite Hm. reflexivity.
Qed.

(** A call of [exec] on a global object when nothing matches from
    [lastIndex] on. *)
Lemma exec_nothing R line :
  global (flags R) = true ->
  (forall j, lastIndex R <= j -> j <= length line ->
             Regex.matchAt line (multiline (flags R)) (source R) j = None) ->
  snd (exec R line) = None.
Proof.
  intros Hg Hnone. unfold exec. rewrite Hg.
  rewrite search_nothing; [reflexivity|].
  intros j Hj1 Hj2. apply Hnone; lia.
Qed.

Lemma whileExec_S filePath n R line lineNum rule issues :
  whileExec filePath (S n) R line lineNum rule issues
  = match exec R line with
    | (R', Some m) =>
        whileExec filePath n R' line lineNum rule (issues ++ [mkIssue filePath lineNum rule m])
    | (_, None) => Some issues
    end.
Proof. reflexivity. Qed.

Lemma whileExec_nothing filePath n R line lineNum rule issues :
  global (flags R) = true ->
  (forall j, lastIndex R <= j -> j <= length line ->
             Regex.matchAt line (multiline (flags R)) (source R) j = None) ->
  whileExec filePath (S n) R line lineNum rule issues = Some issues.
Proof.
  intros Hg Hnone. simpl.
  pose proof (exec_nothing R line Hg Hnone) as He.
  destruct (exec R line) as [R' [m|]]; [discriminate|reflexivity].
Qed.

(** ** The long-line rule *)

Section LongLine.
Variable line : jsstring.
Hypothesis no_terminator : Forall (fun ch => Regex.isLineTerminator ch = false) line.

Lemma dots_to_the_end fuel : forall min x,
  x <= length line -> min + (length line - x) < fuel ->
  Regex.repeatMatcher fuel (Regex.compile line false (Regex.Char Regex.Dot))
                      min None x (fun y => Some y)
  = if min <=? length line - x then Some (length line) else None.
Proof.
  induction fuel as [|fuel IH]; intros min x Hx Hfuel; [lia|].
  cbn [Regex.repeatMatcher Regex.compile].
  destruct (nth_error line x) as [ch|] eqn:Hn.
  - assert (Hlt : x < length line) by (apply nth_error_Some; congruence).
    assert (Hdot : Regex.charMatches Regex.Dot ch = true).
    { simpl. rewrite Forall_forall in no_terminator.
      rewrite (no_terminator ch); [reflexivity|]. eapply nth_error_In. eassumption. }
    rewrite Hdot.
    replace ((min =? 0) && (S x =? x)) with false
      by (destruct (Nat.eqb_spec (S x) x); [lia|rewrite andb_false_r; reflexivity]).
    rewrite IH by (destruct min; simpl; lia).
    destruct (Nat.eqb_spec min 0) as [->|Hmin]; simpl.
    + reflexivity.
    + destruct (Nat.leb_spec (pred min) (length line - S x));
        destruct (Nat.leb_spec min (length line - x)); try reflexivity; lia.
  - apply nth_error_None in Hn. assert (x = length line) by lia. subst x.
    destruct (Nat.eqb_spec min 0) as [->|Hmin]; simpl.
    + reflexivity.
    + destruct (Nat.leb_spec min (length line - length line)); [lia|reflexivity].
Qed.

Lemma long_line_matchAt x :
  x <= length line ->
  Regex.matchAt line false Patterns.long_line x
  = if 120 <=? length line - x then Some (length line) else None.
Proof.
  intros Hx. unfold Regex.matchAt, Patterns.long_line. cbn [Regex.compile].
  apply dots_to_the_end; [assumption|lia].
Qed.
End LongLine.

(** X13: On a line without carriage return or other line terminator, the
    long-line rule reports once, at column 1, when the line has 120
    characters or more, and nothing when it has fewer: a line of exactly
    120 characters is reported as exceeding 120. *)
Theorem long_line_threshold fuel filePath ext line lineNum issues :
  Forall (fun ch => Regex.isLineTerminator ch = false) line ->
  2 <= fuel ->
  lintRule fuel filePath ext line lineNum longLineRule issues
  = Some (if 120 <=? length line
          then issues ++ [issueAt filePath lineNum longLineRule 1]
          else issues).
Proof.
  intros Hline Hfuel. apply lintRule_mono with (fuel := 2); [|assumption].
  unfold lintRule. change (skipped longLineRule ext) with false. cbv iota.
  change (source (Rule.pattern longLineRule)) with Patterns.long_line.
  change (flags (Rule.pattern longLineRule)) with flags_g.
  pose proof (long_line_matchAt line Hline) as Hm.
  destruct (Nat.leb_spec 120 (length line)) as [Hlong|Hshort].
  - rewrite whileExec_S.
    rewrite (exec_first Patterns.long_line flags_g line 0 (length line));
      [|reflexivity|lia|intros j Hj; lia|].
    + rewrite whileExec_nothing; [reflexivity|reflexivity|].
      simpl. intros j Hj1 Hj2. rewrite Hm by assumption.
      destruct (Nat.leb_spec 120 (length line - j)); [lia|reflexivity].
    + simpl. rewrite Hm by lia. rewrite Nat.sub_0_r.
      destruct (Nat.leb_spec 120 (length line)); [reflexivity|lia].
  - apply whileExec_nothing; [reflexivity|].
    simpl. intros j Hj1 Hj2. rewrite Hm by assumption.
    destruct (Nat.leb_spec 120 (length line - j)); [lia|reflexivity].
Qed.

(** An instance: a line of exactly 120 letters. *)
Lemma long_line_threshold_witness :
  lintRule 2 (str "a.txt") (str "txt") (repeat 120%N 120) 1 longLineRule []
  = Some [issueAt (str "a.txt") 1 longLineRule 1].
Proof.
  apply (long_line_threshold 2 (str "a.txt") (str "txt") (repeat 120%N 120) 1 []).
  - apply Forall_forall. intros ch Hin. apply repeat_spec in Hin. subst. reflexivity.
  - lia.
Defined.

(** ** The tab rule *)

Section TabRule.
Variable filePath : jsstring.
Variable line : jsstring.
Variable lineNum : nat.

Lemma tab_matchAt i :
  Regex.matchAt line false Patterns.tab i
  = match nth_error line i with
    | Some ch => if char16_eqb ch TAB then Some (S i) else None
    | None => None
    end.
Proof. reflexivity. Qed.

Lemma exec_skip_one R k :
  global (flags R) = true ->
  lastIndex R = k -> k <= length line ->
  Regex.matchAt line (multiline (flags R)) (source R) k = None ->
  exec R line = exec (setLastIndex R (S k)) line.
Proof.
  intros Hg Hk Hle Hnone. unfold exec. simpl. rewrite Hg, Hk.
  replace (length line + 1 - k) with (S (length line + 1 - S k)) by lia.
  simpl. rewrite Hnone. reflexivity.
Qed.

Lemma whileExec_tabs : forall rest k n issues,
  skipn k line = rest -> k <= length line -> length rest + 1 <= n ->
  whileExec filePath n {| source := Patterns.tab; flags := flags_g; lastIndex := k |}
            line lineNum tabRule issues
  = Some (issues ++ map (issueAt filePath lineNum tabRule) (columnsOf TAB rest (S k))).
Proof.
  induction rest as [|ch rest IH]; intros k n issues Hskip Hk Hn.
  - destruct n as [|n]; [simpl in Hn; lia|].
    rewrite whileExec_nothing; [simpl; rewrite app_nil_r; reflexivity|reflexivity|].
    simpl. intros j Hj1 Hj2. rewrite tab_matchAt.
    assert (length line <= k).
    { rewrite <- (firstn_skipn k line), Hskip, app_nil_r, length_firstn. lia. }
    replace (nth_error line j) with (@None char16); [reflexivity|].
    symmetry. apply nth_error_None. lia.
  - rewrite skipn_nth_error in Hskip.
    destruct (nth_error line k) as [ch'|] eqn:Hnth; [|discriminate].
    injection Hskip as Hch Hrest. subst ch'.
    assert (Hlt : k < length line) by (apply nth_error_Some; congruence).
    destruct n as [|n]; [simpl in Hn; lia|]. simpl in Hn.
    simpl columnsOf. destruct (char16_eqb ch TAB) eqn:Htab.
    + rewrite whileExec_S. unfold exec. simpl global. cbv iota. simpl lastIndex.
      replace (length line + 1 - k) with (S (length line - k)) by lia.
      assert (Hm : Regex.matchAt line false Patterns.tab k = Some (S k))
        by (rewrite tab_matchAt, Hnth, Htab; reflexivity).
      simpl multiline. simpl source.
      rewrite (RegexFacts.search_here _ _ _ _ _ (length line - k) Hm).
      unfold setLastIndex. simpl.
      rewrite (IH (S k) n); [|assumption|lia|lia].
      rewrite <- app_assoc. unfold mkIssue, issueAt. simpl.
      rewrite ?Nat.add_1_r. reflexivity.
    + assert (Hm : Regex.matchAt line false Patterns.tab k = None)
        by (rewrite tab_matchAt, Hnth, Htab; reflexivity).
      transitivity
        (whileExec filePath (S n)
                   {| source := Patterns.tab; flags := flags_g; lastIndex := S k |}
                   line lineNum tabRule issues).
      * rewrite !whileExec_S.
        rewrite (exec_skip_one _ k); [reflexivity|reflexivity|reflexivity|lia|exact Hm].
      * apply IH; [assumption|lia|simpl; lia].
Qed.
End TabRule.

(** X14: The tab rule reports every tab of a line, each at its own column, from
    left to right, for a unit of any language. *)
Theorem tabs_are_reported_one_by_one fuel filePath ext line lineNum issues :
  length line + 1 <= fuel ->
  lintRule fuel filePath ext line lineNum tabRule issues
  = Some (issues ++ map (issueAt filePath lineNum tabRule) (columnsOf TAB line 1)).
Proof.
  intros Hfuel. unfold lintRule. change (skipped tabRule ext) with false. cbv iota.
  apply (whileExec_tabs filePath line lineNum line 0 fuel issues);
    [reflexivity|lia|assumption].
Qed.

(** An instance: two tabs around a letter. *)
Lemma tabs_are_reported_one_by_one_witness :
  lintRule 4 (str "Makefile") (str "makefile") [9%N; 120%N; 9%N] 7 tabRule []
  = Some [issueAt (str "Makefile") 7 tabRule 1; issueAt (str "Makefile") 7 tabRule 3].
Proof.
  apply (tabs_are_reported_one_by_one 4 (str "Makefile") (str "makefile")
           [9%N; 120%N; 9%N] 7 []).
  simpl. lia.
Defined.

(** ** The loose-equality rule *)

Lemma occursAt_app pre s k kw :
  SpecScore.occursAt (pre ++ s) (length pre + k) kw = SpecScore.occursAt s k kw.
Proof.
  unfold SpecScore.occursAt. rewrite skipn_app.
  rewrite skipn_all2 by lia.
  replace (length pre + k - length pre) with k by lia. reflexivity.
Qed.

Lemma loose_eq_matchAt line x :
  Regex.matchAt line false Patterns.loose_eq x
  = if SpecScore.occursAt line x [EQUALS; EQUALS]
       && negb (SpecScore.occursAt line (x + 2) [EQUALS])
    then Some (x + 2) else None.
Proof.
  unfold Regex.matchAt, Patterns.loose_eq. cbn [Patterns.seq Regex.compile].
  rewrite !compile_lits.
  change (str "==") with [EQUALS; EQUALS]. change (str "=") with [EQUALS].
  destruct (SpecScore.occursAt line x [EQUALS; EQUALS]); [|reflexivity].
  cbn [length]. destruct (SpecScore.occursAt line (x + 2) [EQUALS]); reflexivity.
Qed.

(** X15: The rule against [==] reports every [===] that no [=] follows: the
    look-ahead only rejects the first two of the three signs, and the match
    is found one character later, at the second sign. *)
Theorem strict_equality_is_flagged fuel filePath pre post lineNum issues :
  ~ In EQUALS pre ->
  hd_error post <> Some EQUALS ->
  length (pre ++ [EQUALS; EQUALS; EQUALS] ++ post) + 2 <= fuel ->
  In looseEqRule LINT_RULES
  /\ exists rest,
       lintRule fuel filePath (str "js") (pre ++ [EQUALS; EQUALS; EQUALS] ++ post)
                lineNum looseEqRule issues
       = Some (issues ++ issueAt filePath lineNum looseEqRule (length pre + 2) :: rest).
Proof.
  intros Hpre Hpost Hfuel. split.
  { simpl. do 3 right. left. reflexivity. }
  set (line := pre ++ [EQUALS; EQUALS; EQUALS] ++ post) in *.
  unfold lintRule. change (skipped looseEqRule (str "js")) with false. cbv iota.
  change (source (Rule.pattern looseEqRule)) with Patterns.loose_eq.
  change (flags (Rule.pattern looseEqRule)) with flags_g.
  assert (Hlen : length line = length pre + 3 + length post).
  { unfold line. rewrite !length_app. simpl. lia. }
  destruct fuel as [|n]; [lia|]. rewrite whileExec_S.
  rewrite (exec_first Patterns.loose_eq flags_g line (length pre + 1) (length pre + 3)).
  - destruct (whileExec_terminates filePath line lineNum looseEqRule n
                {| source := Patterns.loose_eq; flags := flags_g;
                   lastIndex := length pre + 3 |}
                (issues ++ [mkIssue filePath lineNum looseEqRule
                              {| index := length pre + 1;
                                 matched := substring line (length pre + 1) (length pre + 3) |}]))
      as [res Hres]; [reflexivity|simpl; lia|simpl; lia|].
    rewrite Hres. apply whileExec_spec in Hres.
    destruct Hres as (cols & -> & _).
    exists (map (issueAt filePath lineNum looseEqRule) cols).
    rewrite <- app_assoc. unfold mkIssue, issueAt. simpl.
    replace (length pre + 1 + 1) with (length pre + 2) by lia. reflexivity.
  - reflexivity.
  - lia.
  - intros j Hj. simpl multiline. rewrite loose_eq_matchAt.
    destruct (Nat.eq_dec j (length pre)) as [->|Hne].
    + replace (length pre + 2) with (length pre + 2) by reflexivity.
      unfold line.
      rewrite <- (Nat.add_0_r (length pre)) at 1.
      rewrite !occursAt_app. reflexivity.
    + assert (Hlt : j < length pre) by lia.
      rewrite occursAt_cons. unfold line. rewrite nth_error_app1 by assumption.
      destruct (nth_error pre j) as [ch|] eqn:Hn; [|reflexivity].
      destruct (N.eqb_spec ch EQUALS) as [->|Hch]; unfold char16_eqb.
      * exfalso. apply Hpre. eapply nth_error_In. eassumption.
      * apply N.eqb_neq in Hch. rewrite Hch. reflexivity.
  - simpl multiline. rewrite loose_eq_matchAt. unfold line.
    replace (length pre + 1 + 2) with (length pre + 3) by lia.
    rewrite !occursAt_app.
    replace (SpecScore.occursAt ([EQUALS; EQUALS; EQUALS] ++ post) 1 [EQUALS; EQUALS])
      with true by reflexivity.
    replace (SpecScore.occursAt ([EQUALS; EQUALS; EQUALS] ++ post) 3 [EQUALS])
      with false; [reflexivity|].
    unfold SpecScore.occursAt. simpl skipn. simpl length.
    destruct post as [|ch post]; [reflexivity|]. simpl.
    unfold char16_eqb, EQUALS in *.
    destruct (N.eqb_spec ch 61) as [->|Hch]; [|reflexivity].
    exfalso. apply Hpost. reflexivity.
Qed.

(** An instance: [a === b]. *)
Lemma strict_equality_is_flagged_witness :
  exists rest,
    lintRule 9 (str "a.js") (str "js") (str "a " ++ [EQUALS; EQUALS; EQUALS] ++ str " b")
             1 looseEqRule []
    = Some ([] ++ issueAt (str "a.js") 1 looseEqRule (length (str "a ") + 2) :: rest).
Proof.
  apply (strict_equality_is_flagged 9 (str "a.js") (str "a ") (str " b") 1 []).
  - simpl. intros [H|[H|[]]]; discriminate H.
  - discriminate.
  - simpl. lia.
Defined.

(** ** The trailing-white-space rule *)

Section ClassRuns.
Variable input : jsstring.
Variable multiline : bool.
Variable cc : Regex.CharClass.

(** A quantified character class succeeds only through its continuation,
    called after a run of characters of the class. *)
Lemma repeat_class_run fuel : forall min max x c e,
  x <= length input ->
  Regex.repeatMatcher fuel (Regex.compile input multiline (Regex.Char cc)) min max x c
  = Some e ->
  exists y, x + RegexSpec.iterations min max <= y /\ y <= length input
            /\ c y = Some e
            /\ forall p, x <= p -> p < y ->
                 exists ch, nth_error input p = Some ch
                            /\ Regex.charMatches cc ch = true.
Proof.
  induction fuel as [|fuel IH]; intros min max x c e Hx H; [discriminate|].
  assert (Hchar : forall d,
    Regex.compile input multiline (Regex.Char cc) x d = Some e ->
    d (S x) = Some e /\ S x <= length input
    /\ exists ch, nth_error input x = Some ch /\ Regex.charMatches cc ch = true).
  { intros d Hd. cbn [Regex.compile] in Hd.
    destruct (nth_error input x) as [ch|] eqn:Hn; [|discriminate].
    destruct (Regex.charMatches cc ch) eqn:Hc; [|discriminate].
    split; [assumption|]. split; [|exists ch; auto].
    apply Nat.le_succ_l. apply nth_error_Some. congruence. }
  assert (Hhere : c x = Some e -> RegexSpec.iterations min max = 0 ->
    exists y, x + RegexSpec.iterations min max <= y /\ y <= length input
              /\ c y = Some e
              /\ forall p, x <= p -> p < y ->
                   exists ch, nth_error input p = Some ch
                              /\ Regex.charMatches cc ch = true).
  { intros Hc Hit. exists x. rewrite Hit. repeat split; auto; try lia. }
  assert (Hgo : max <> Some 0 ->
    Regex.compile input multiline (Regex.Char cc) x
      (fun y => if (min =? 0) && (y =? x) then None
                else Regex.repeatMatcher fuel
                       (Regex.compile input multiline (Regex.Char cc))
                       (pred min) (option_map pred max) y c) = Some e ->
    exists y, x + RegexSpec.iterations min max <= y /\ y <= length input
              /\ c y = Some e
              /\ forall p, x <= p -> p < y ->
                   exists ch, nth_error input p = Some ch
                              /\ Regex.charMatches cc ch = true).
  { intros Hmax Hm. apply Hchar in Hm. destruct Hm as (Hdx & Hle & ch & Hn & Hc).
    cbv beta in Hdx.
    replace ((min =? 0) && (S x =? x)) with false in Hdx
      by (destruct (Nat.eqb_spec (S x) x); [lia|rewrite andb_false_r; reflexivity]).
    apply IH in Hdx; [|assumption].
    destruct Hdx as (y & Hy1 & Hy2 & Hcy & Hrun).
    exists y. repeat split; auto.
    - destruct (Nat.eq_dec min 0) as [->|Hmin].
      + replace (RegexSpec.iterations 0 max) with 0 by (destruct max; reflexivity). lia.
      + pose proof (RegexFacts.iterations_step min max Hmin Hmax). lia.
    - intros p Hp1 Hp2. destruct (Nat.eq_dec p x) as [->|Hne].
      + exists ch. auto.
      + apply Hrun; lia. }
  clear Hchar IH.
  destruct max as [[|j]|].
  - apply Hhere; [exact H|]. simpl. apply Nat.min_0_r.
  - destruct min as [|min'].
    + change (match Regex.compile input multiline (Regex.Char cc) x
                      (fun y => if (0 =? 0) && (y =? x) then None
                                else Regex.repeatMatcher fuel
                                       (Regex.compile input multiline (Regex.Char cc))
                                       (pred 0) (option_map pred (Some (S j))) y c) with
              | Some z => Some z
              | None => c x
              end = Some e) in H.
      destruct (Regex.compile input multiline (Regex.Char cc) x _) as [z|] eqn:Hm.
      * inversion H; subst z. apply Hgo; [discriminate|reflexivity].
      * apply Hhere; [exact H|reflexivity].
    + apply Hgo; [discriminate|exact H].
  - destruct min as [|min'].
    + change (match Regex.compile input multiline (Regex.Char cc) x
                      (fun y => if (0 =? 0) && (y =? x) then None
                                else Regex.repeatMatcher fuel
                                       (Regex.compile input multiline (Regex.Char cc))
                                       (pred 0) (option_map pred None) y c) with
              | Some z => Some z
              | None => c x
              end = Some e) in H.
      destruct (Regex.compile input multiline (Regex.Char cc) x _) as [z|] eqn:Hm.
      * inversion H; subst z. apply Hgo; [discriminate|reflexivity].
      * apply Hhere; [exact H|reflexivity].
    + apply Hgo; [discriminate|exact H].
Qed.
End ClassRuns.

Lemma trailing_ws_matchAt line x :
  Regex.matchAt line true Patterns.trailing_ws x
  = Regex.repeatMatcher (S (1 + length line))
      (Regex.compile line true (Regex.Char Regex.Space)) 1 None x
      (fun y => Regex.compile line true Regex.EndOfLine y (fun z => Some z)).
Proof. reflexivity. Qed.

Section CarriageReturn.
Variable body : jsstring.
Hypothesis no_terminator : Forall (fun ch => Regex.isLineTerminator ch = false) body.
Hypothesis ends_in_text : isSpace (last body 0%N) = false.

Lemma trailing_before_cr j :
  j < length body ->
  Regex.matchAt (body ++ [CR]) true Patterns.trailing_ws j = None.
Proof.
  intros Hj.
  destruct (Regex.matchAt (body ++ [CR]) true Patterns.trailing_ws j) as [e|] eqn:Hm;
    [exfalso|reflexivity].
  rewrite trailing_ws_matchAt in Hm.
  apply (repeat_class_run (body ++ [CR]) true Regex.Space) in Hm;
    [|rewrite length_app; simpl; lia].
  destruct Hm as (y & Hy1 & Hy2 & Hend & Hrun). simpl in Hy1.
  cbn [Regex.compile] in Hend.
  destruct (Nat.lt_ge_cases y (length body)) as [Hlt|Hge].
  - rewrite nth_error_app1 in Hend by assumption.
    destruct (nth_error body y) as [ch|] eqn:Hn.
    + rewrite Forall_forall in no_terminator.
      rewrite (no_terminator ch) in Hend by (eapply nth_error_In; eassumption).
      discriminate.
    + apply nth_error_None in Hn. lia.
  - destruct (Hrun (length body - 1)) as (ch & Hn & Hc); [lia|lia|].
    rewrite nth_error_app1 in Hn by lia.
    assert (Hlast : last body 0%N = ch).
    { clear - Hn Hj. destruct (exists_last (l := body)) as (b & x & Hb).
      - intros ->. simpl in Hj. lia.
      - subst body. rewrite last_last. rewrite length_app in Hn. simpl in Hn.
        replace (length b + 1 - 1) with (length b) in Hn by lia.
        rewrite nth_error_app2, Nat.sub_diag in Hn by lia. simpl in Hn. congruence. }
    rewrite Hlast in ends_in_text. unfold isSpace in ends_in_text.
    simpl in Hc. congruence.
Qed.

Lemma trailing_at_cr :
  Regex.matchAt (body ++ [CR]) true Patterns.trailing_ws (length body)
  = Some (length body + 1).
Proof.
  assert (H1 : nth_error (body ++ [CR]) (length body) = Some CR)
    by (rewrite nth_error_app2, Nat.sub_diag by lia; reflexivity).
  assert (H2 : nth_error (body ++ [CR]) (S (length body)) = None)
    by (apply nth_error_None; rewrite length_app; simpl; lia).
  assert (H3 : (S (length body) =? length body) = false)
    by (apply Nat.eqb_neq; lia).
  rewrite trailing_ws_matchAt.
  rewrite (RegexFacts.repeatMatcher_fuel (body ++ [CR]) _
             (RegexFacts.compile_respects (body ++ [CR]) true (Regex.Char Regex.Space))
             _ 3);
    try (rewrite length_app; simpl; lia).
  cbn [Regex.repeatMatcher Regex.compile]. rewrite H1, H2, H3.
  rewrite Nat.add_1_r. reflexivity.
Qed.
End CarriageReturn.

(** X16: A line that ends in a carriage return, as every line of a text with
    CRLF line ends does, is reported once for trailing white space, at the
    column of the carriage return, when what stands before it holds no line
    terminator and does not end in white space. *)
Theorem carriage_return_is_trailing_space fuel filePath ext body lineNum issues :
  Forall (fun ch => Regex.isLineTerminator ch = false) body ->
  isSpace (last body 0%N) = false ->
  2 <= fuel ->
  lintRule fuel filePath ext (body ++ [CR]) lineNum trailingRule issues
  = Some (issues ++ [issueAt filePath lineNum trailingRule (length body + 1)]).
Proof.
  intros Hbody Hlast Hfuel. apply lintRule_mono with (fuel := 2); [|assumption].
  unfold lintRule. change (skipped trailingRule ext) with false. cbv iota.
  change (source (Rule.pattern trailingRule)) with Patterns.trailing_ws.
  change (flags (Rule.pattern trailingRule)) with flags_gm.
  rewrite whileExec_S.
  rewrite (exec_first Patterns.trailing_ws flags_gm (body ++ [CR])
                      (length body) (length body + 1)).
  - rewrite whileExec_nothing; [reflexivity|reflexivity|].
    simpl. intros j Hj1 Hj2.
    destruct (Regex.matchAt (body ++ [CR]) true Patterns.trailing_ws j) as [e|] eqn:Hm;
      [exfalso|reflexivity].
    apply RegexFacts.matchAt_bounds in Hm; [|assumption].
    change (RegexSpec.minLen Patterns.trailing_ws) with 1 in Hm.
    rewrite length_app in *. simpl in *. lia.
  - reflexivity.
  - rewrite length_app. simpl. lia.
  - intros j Hj. apply trailing_before_cr; assumption.
  - apply trailing_at_cr.
Qed.

(** An instance: the line [x = 1;] of a file with CRLF line ends. *)
Lemma carriage_return_is_trailing_space_witness :
  lintRule 2 (str "a.py") (str "py") (str "x = 1;" ++ [CR]) 1 trailingRule []
  = Some [issueAt (str "a.py") 1 trailingRule (length (str "x = 1;") + 1)].
Proof.
  apply (carriage_return_is_trailing_space 2 (str "a.py") (str "py") (str "x = 1;") 1 []).
  - repeat constructor.
  - reflexivity.
  - lia.
Defined.

(* ================================================================= *)
(** * C2: what a run counts, and when it is cut short *)

(** In a traversal that reaches its end, the files linted are the files read
    and scanned, one count each, and the issues are those of these scans in
    order. *)
Lemma lintPaths_scans fs fuel depth options paths st :
  lintPaths fs fuel depth options paths noIssuesYet = Done st ->
  exists scans,
    filesLinted st = length scans
    /\ Forall (scanned fs fuel) scans
    /\ allIssues st = concat (map scanIssues scans).
Proof.
  intros H.
  apply (lintPaths_invariant fs fuel
           (fun s => exists scans,
                       filesLinted s = length scans
                       /\ Forall (scanned fs fuel) scans
                       /\ allIssues s = concat (map scanIssues scans)))
    with (depth := depth) (options := options) (paths := paths) (st := noIssuesYet);
    [|assumption|exists []; repeat split; constructor].
  intros p content issues s Hread Hlint (scans & Hcount & Hall & Hissues).
  exists (scans ++ [{| scanPath := p; scanContent := content; scanIssues := issues |}]).
  simpl. split; [|split].
  - rewrite length_app. simpl. lia.
  - apply Forall_app. split; [assumption|].
    constructor; [split; assumption|constructor].
  - rewrite map_app, concat_app, Hissues. simpl. rewrite app_nil_r. reflexivity.
Qed.

(** C2 (amended): a traversal failure on one entry, at the entry itself or
    anywhere below it, ends the whole run with the exception, whatever
    entries follow: nothing is skipped and no report comes out.  In every run
    that finishes, only units that were read are counted: the number of files
    linted is the number of files read and scanned, and the issues are those
    of these scans.  When every entry is a regular file that can be read, the
    traversal reaches its end with every entry counted, and the run finishes
    with that count unless writing the output file throws. *)
Theorem traversal_failure_aborts (fs : FileSystem) (fuel depth : nat) (options : Options) :
  (forall pre p post st,
      lintPaths fs fuel depth options pre noIssuesYet = Done st ->
      failsAt fs depth options p \/ lintPath fs fuel depth options p st = Throw ->
      lintAction fs fuel depth options (pre ++ p :: post) = Throw)
  /\ (forall paths report,
      lintAction fs fuel depth options paths = Done report ->
      exists scans,
        reportFiles report = length scans
        /\ Forall (scanned fs fuel) scans
        /\ reportIssues report = concat (map scanIssues scans))
  /\ (forall paths,
      (forall p, In p paths -> readableFile fs fuel p) ->
      exists st,
        lintPaths fs fuel depth options paths noIssuesYet = Done st
        /\ filesLinted st = length paths
        /\ ((forall out, output options = Some out ->
                         writeFileSync fs out (allIssues st) <> None) ->
            exists report,
              lintAction fs fuel depth options paths = Done report
              /\ reportFiles report = length paths)).
Proof.
  split; [|split].
  - intros pre p post st Hpre Hfail. unfold lintAction.
    fold noIssuesYet. rewrite lintPaths_app, Hpre. simpl.
    destruct Hfail as [Hfail|Hfail].
    + rewrite failsAt_Throw by assumption. reflexivity.
    + rewrite Hfail. reflexivity.
  - intros paths report H. apply lintAction_Done in H.
    destruct H as (st & Hst & -> & -> & _).
    eapply lintPaths_scans. eassumption.
  - intros paths Hall.
    destruct (lintPaths_files fs fuel depth options paths noIssuesYet Hall)
      as (st & Hst & Hcount).
    exists st. split; [assumption|]. split; [simpl in Hcount; assumption|].
    intros Hwrite. unfold lintAction. fold noIssuesYet. rewrite Hst. simpl.
    destruct (output options) as [out|] eqn:Hout; simpl.
    + destruct (writeFileSync fs out (allIssues st)) as [[]|] eqn:Hw.
      * simpl. eexists. split; [reflexivity|]. simpl. assumption.
      * exfalso. apply (Hwrite out eq_refl). assumption.
    + eexists. split; [reflexivity|]. simpl. assumption.
Qed.

(** An instance: a missing path between two readable ones. *)
Lemma traversal_failure_aborts_witness :
  lintAction oneFile 12 1 noOptions ([str "a.js"] ++ str "gone.js" :: [str "a.js"]) = Throw.
Proof.
  apply (proj1 (traversal_failure_aborts oneFile 12 1 noOptions)
               [str "a.js"] (str "gone.js") [str "a.js"]
               {| allIssues := [varIssue (str "a.js") 1 1]; filesLinted := 1 |}).
  - vm_compute. reflexivity.
  - left. left. reflexivity.
Defined.

(* ================================================================= *)
(** * C4: the exit code of a run *)

Lemma lintAction_no_error fs fuel depth options paths report :
  lintAction fs fuel depth options paths = Done report ->
  errorCount (reportIssues report) = 0 /\ reportExit report = 0.
Proof.
  intros H. apply lintAction_Done in H.
  destruct H as (st & Hst & Hissues & _ & Hcounts & Hexit & _).
  assert (Herr : errorCount (allIssues st) = 0).
  { apply (lintPaths_invariant fs fuel (fun s => errorCount (allIssues s) = 0))
      with (depth := depth) (options := options) (paths := paths) (st := noIssuesYet);
      [|assumption|reflexivity].
    intros p content issues s _ Hlint Hs. simpl.
    rewrite errorCount_app, Hs. simpl. eapply lintFile_no_error. eassumption. }
  split; [rewrite Hissues; assumption|].
  rewrite Hexit, Hcounts. unfold exitCode.
  rewrite groupBySeverity_errors, Herr. reflexivity.
Qed.

(** C4, as stated, fails: the run over a readable file and a missing path
    has accumulated one warning and no error when [statSync] throws on the
    second path, and the process ends with exit code 1: a failure signal
    without any issue of severity error, in a run whose issues are all
    warnings. *)
Lemma exception_exits_without_error :
  lintPaths oneFile 2 1 noOptions [str "a.js"] noIssuesYet
  = Done {| allIssues := [varIssue (str "a.js") 1 1]; filesLinted := 1 |}
  /\ errorCount [varIssue (str "a.js") 1 1] = 0
  /\ processExit reportExit
       (lintAction oneFile 2 1 noOptions [str "a.js"; str "gone.js"]) = Some 1.
Proof.
  split; [vm_compute; reflexivity|]. split; reflexivity.
Qed.

(** C4 (amended): the [lint] action derives its exit code from the issue
    list alone: for every issue list the code is non-zero exactly when the
    list holds an issue of severity error, so warnings and infos never raise
    it.  No built-in rule has severity error, hence no scan produces such an
    issue and every run that finishes ends with exit code 0.  A [lint] run
    signals failure exactly when an exception nothing catches ends it; a
    [pr] run exactly when an exception ends it or the token is missing; in
    neither case does the signal come from the issues found. *)
Theorem exit_signal_of_runs :
  (forall issues,
      exitCode (groupBySeverity issues {| errors := 0; warnings := 0; infos := 0 |}) <> 0
      <-> 0 < errorCount issues)
  /\ (forall fuel filePath content issues,
      lintFile fuel filePath content = Some issues -> errorCount issues = 0)
  /\ (forall fs fuel depth options paths code,
      processExit reportExit (lintAction fs fuel depth options paths) = Some code ->
      (code <> 0 <-> lintAction fs fuel depth options paths = Throw)
      /\ (forall report,
            lintAction fs fuel depth options paths = Done report ->
            errorCount (reportIssues report) = 0 /\ code = 0))
  /\ (forall fuel octokit token listFiles code,
      processExit prExit (prCommand fuel octokit token listFiles) = Some code ->
      (code <> 0 <-> prCommand fuel octokit token listFiles = Throw
                     \/ token = None \/ token = Some [])).
Proof.
  split; [|split; [|split]].
  - intros issues. rewrite exitCode_errors.
    destruct (Nat.ltb_spec 0 (errorCount issues)); split; intros; try lia; congruence.
  - apply lintFile_no_error.
  - intros fs fuel depth options paths code H.
    destruct (lintAction fs fuel depth options paths) as [report| |] eqn:Hrun;
      simpl in H; inversion H; subst; clear H.
    + destruct (lintAction_no_error _ _ _ _ _ _ Hrun) as [Herr Hexit].
      split.
      * rewrite Hexit. split; [intros Hne; exfalso; apply Hne; reflexivity|discriminate].
      * intros r Hr. inversion Hr; subst. split; assumption.
    + split.
      * split; [reflexivity|discriminate].
      * intros r Hr. discriminate.
  - intros fuel octokit token listFiles code H. unfold prCommand in *.
    destruct octokit as [[]|]; simpl in *.
    + destruct token as [[|c t]|].
      * inversion H; subst. split; [intros _; right; right; reflexivity|discriminate].
      * destruct listFiles as [files|]; simpl in *.
        -- destruct (prAction fuel files) as [report|] eqn:Hpr; simpl in *; [|discriminate].
           inversion H; subst; clear H.
           assert (Hexit : prExit report = 0).
           { unfold prAction in Hpr.
             destruct (prFiles fuel files 0 []) as [[total out]|]; [|discriminate].
             inversion Hpr. reflexivity. }
           rewrite Hexit. split; [intros Hne; exfalso; apply Hne; reflexivity|].
           intros [Hd|[Hd|Hd]]; discriminate.
        -- inversion H; subst. split; [intros _; left; reflexivity|discriminate].
      * inversion H; subst. split; [intros _; right; left; reflexivity|discriminate].
    + inversion H; subst. split; [intros _; left; reflexivity|discriminate].
Qed.

(** An instance: the run cut short by the missing path. *)
Lemma exit_signal_of_runs_witness :
  1 <> 0 <-> lintAction oneFile 2 1 noOptions [str "a.js"; str "gone.js"] = Throw.
Proof.
  apply (proj1 (proj2 (proj2 exit_signal_of_runs)) oneFile 2 1 noOptions
               [str "a.js"; str "gone.js"] 1).
  reflexivity.
Defined.
